(** * Weather chat assistant: the Gemini service and its request handler

    A shallow embedding of [server/gemini/service.ts] ([callGemini] and its
    helpers) and of [server/gemini/controller.ts] ([handleGeminiRequest]),
    followed by the properties the specification states about them.

    JavaScript values are the values a JSON document can hold (plus
    [undefined]); strings are byte strings in UTF-8; the outside world
    (environment variable, the HTTP exchanges, the availability of
    [AbortController]) is an explicit [Env]; effects (timers, outbound
    calls, delays, log lines) are recorded in a trace. *)

From Stdlib Require Import String Ascii List ZArith NArith Bool Lia.
From Stdlib Require Import DecimalString Floats.PrimFloat.
Import ListNotations.
Open Scope string_scope.
Open Scope Z_scope.

Set Warnings "-register-all".

(** ** JavaScript values *)

Module JS.

(** What [JSON.parse] / [request.json()] can produce, and [undefined].
    An object is its list of own properties; a parsed object has one
    binding per key and [assoc] reads the first. Numbers are binary64. *)
Inductive value : Type :=
| VUndefined
| VNull
| VBool (b : bool)
| VNum (x : float)
| VStr (s : string)
| VArr (items : list value)
| VObj (fields : list (string * value)).

Inductive type_tag : Type :=
| TUndefined | TObject | TBoolean | TNumber | TString.

(** [typeof v]; [null] and arrays are ['object']. *)
Definition typeof (v : value) : type_tag :=
  match v with
  | VUndefined => TUndefined
  | VNull => TObject
  | VBool _ => TBoolean
  | VNum _ => TNumber
  | VStr _ => TString
  | VArr _ => TObject
  | VObj _ => TObject
  end.

Definition is_object_tag (t : type_tag) : bool :=
  match t with TObject => true | _ => false end.

Definition str_truthy (s : string) : bool := negb (s =? "")%string.

(** ToBoolean: [undefined], [null], [false], [0], [-0], [NaN] and [''] are
    falsy. *)
Definition truthy (v : value) : bool :=
  match v with
  | VUndefined | VNull => false
  | VBool b => b
  | VNum x => negb (PrimFloat.eqb x 0%float || negb (PrimFloat.eqb x x))
  | VStr s => str_truthy s
  | VArr _ | VObj _ => true
  end.

(** [a || b] *)
Definition or_else (a b : value) : value := if truthy a then a else b.

Fixpoint assoc (key : string) (fields : list (string * value)) : option value :=
  match fields with
  | [] => None
  | (k, v) :: rest => if (k =? key)%string then Some v else assoc key rest
  end.

(** [v[key]] / [v.key] for the property names the two modules read
    ([promptText], [candidates], [web], [error], ...): none of them is a
    built-in property of arrays, strings, numbers or booleans, so only an
    object can hold one. [None] is the TypeError of reading a property of
    [null] or [undefined]. *)
Definition member (v : value) (key : string) : option value :=
  match v with
  | VUndefined | VNull => None
  | VObj fields =>
      Some (match assoc key fields with Some x => x | None => VUndefined end)
  | _ => Some VUndefined
  end.

(** [v?.key] *)
Definition opt_member (v : value) (key : string) : value :=
  match member v key with Some x => x | None => VUndefined end.

(** [v?.[0]]: the first element of an array, the property ["0"] of an
    object, the first character of a string (as a one-character string: its
    first byte here; every later read on it is a named property, which a
    string does not have). *)
Definition opt_index0 (v : value) : value :=
  match v with
  | VArr (x :: _) => x
  | VObj fields =>
      match assoc "0" fields with Some x => x | None => VUndefined end
  | VStr (String c _) => VStr (String c EmptyString)
  | _ => VUndefined
  end.

(** *** Strings *)

Definition bytes_of (s : string) : list N :=
  map N_of_ascii (list_ascii_of_string s).

Definition of_bytes (l : list N) : string :=
  string_of_list_ascii (map ascii_of_N l).

(** White space and line terminators of ECMAScript that fit one byte:
    TAB, LF, VT, FF, CR, SP. *)
Definition ws1 (b : N) : bool :=
  ((9 <=? b) && (b <=? 13) || (b =? 32))%N.

(** U+00A0 in UTF-8. *)
Definition ws2 (b1 b2 : N) : bool := ((b1 =? 194) && (b2 =? 160))%N.

(** U+1680, U+2000..U+200A, U+2028, U+2029, U+202F, U+205F, U+3000 and
    U+FEFF in UTF-8. *)
Definition ws3 (b1 b2 b3 : N) : bool :=
  ((b1 =? 225) && (b2 =? 154) && (b3 =? 128)
   || (b1 =? 226) && (b2 =? 128)
      && ((128 <=? b3) && (b3 <=? 138) || (b3 =? 168) || (b3 =? 169) || (b3 =? 175))
   || (b1 =? 226) && (b2 =? 129) && (b3 =? 159)
   || (b1 =? 227) && (b2 =? 128) && (b3 =? 128)
   || (b1 =? 239) && (b2 =? 187) && (b3 =? 191))%N.

(** Drops leading white space. With [backwards] the list is a reversed
    string, so the bytes of a character arrive last byte first. *)
Fixpoint drop_ws (backwards : bool) (l : list N) : list N :=
  match l with
  | [] => []
  | b1 :: r1 =>
      if ws1 b1 then drop_ws backwards r1
      else
        match r1 with
        | [] => l
        | b2 :: r2 =>
            if (if backwards then ws2 b2 b1 else ws2 b1 b2)
            then drop_ws backwards r2
            else
              match r2 with
              | [] => l
              | b3 :: r3 =>
                  if (if backwards then ws3 b3 b2 b1 else ws3 b1 b2 b3)
                  then drop_ws backwards r3
                  else l
              end
        end
  end.

(** [s.trim()] *)
Definition trim (s : string) : string :=
  of_bytes (rev (drop_ws true (rev (drop_ws false (bytes_of s))))).

Definition starts_with (s sub : string) : bool := String.prefix sub s.

(** [s.includes(sub)] *)
Fixpoint includes (s sub : string) : bool :=
  starts_with s sub
  || match s with
     | EmptyString => false
     | String _ rest => includes rest sub
     end.

(** Template-literal rendering of a non-negative integer. *)
Definition show_N (n : N) : string := NilZero.string_of_uint (N.to_uint n).

(** *** Errors raised by the platform

    [fetch], [Response.json] and a failed method call throw [Error]
    objects; the code reads their [name] and [message]. *)
Record Error : Type := mkError { name : string; message : string }.

(** What an aborted [fetch] rejects with. *)
Definition AbortError : Error :=
  {| name := "AbortError"; message := "This operation was aborted" |}.

(** What calling [arr.map] throws when [arr] is not an array. *)
Definition map_is_not_a_function : Error :=
  {| name := "TypeError"; message := "arr.map is not a function" |}.

End JS.

Import JS.

(** ** The service: [server/gemini/service.ts] *)

Module Service.

(** [GeminiSource]; the fields hold whatever the response carried. *)
Record GeminiSource : Type := mkSource { uri : value; title : value }.

(** [GeminiResult] *)
Record GeminiResult : Type :=
  mkResult { text : value; sources : list GeminiSource }.

(** [class GeminiAPIError extends Error]: [status] is [None] and [details]
    is [VUndefined] when the constructor is called without them. *)
Record GeminiAPIError : Type :=
  mkGeminiAPIError {
    ge_message : string;
    ge_status : option N;
    ge_details : value }.

Definition GeminiAPIError_new (msg : string) : GeminiAPIError :=
  mkGeminiAPIError msg None VUndefined.

(** What a [throw] can carry here: an instance of [GeminiAPIError], or an
    error object of the platform. *)
Inductive thrown : Type :=
| ThrownGemini (e : GeminiAPIError)
| ThrownOther (e : JS.Error).

Definition ja_directive : string :=
  String "010" (String "010"
    "Always answer ONLY in Japanese (日本語) regardless of input language. Use natural, friendly Japanese.").

Definition en_directive : string :=
  String "010" (String "010"
    "Always answer ONLY in English regardless of input language. Use natural, friendly English.").

Definition language_is (language : option string) (tag : string) : bool :=
  match language with
  | Some l => (l =? tag)%string
  | None => false
  end.

Definition buildFinalSystemInstruction
    (systemInstruction : option string) (language : option string) : string :=
  let final :=
    match systemInstruction with
    | Some s => if str_truthy s then s else ""
    | None => ""
    end in
  if language_is language "ja-JP" then final ++ ja_directive
  else if language_is language "en-US" then final ++ en_directive
  else final.

(** The arrow function of [arr.map] in [parseCandidateSources]. *)
Definition attribution_source (a : value) : GeminiSource :=
  {| uri := or_else (opt_member (opt_member a "web") "uri") (VStr "");
     title := or_else (opt_member (opt_member a "web") "title")
                      (VStr "External Source") |}.

(** [inl] is the exception of calling [.map] on a value that is no array. *)
Definition parseCandidateSources (candidate : value)
  : JS.Error + list GeminiSource :=
  let groundingVal :=
    if truthy candidate && is_object_tag (typeof candidate)
    then opt_member candidate "groundingMetadata"
    else VUndefined in
  if negb (truthy groundingVal) || negb (is_object_tag (typeof groundingVal))
  then inr []
  else
    let attributions := opt_member groundingVal "groundingAttributions" in
    if negb (truthy attributions) then inr []
    else
      match attributions with
      | VArr arr => inr (map attribution_source arr)
      | _ => inl map_is_not_a_function
      end.

(** *** The outside world *)

(** A response received from the provider: [resp.status], the body as
    [resp.text()] gives it, and what parsing that body as JSON gives
    ([resp.json()], [JSON.parse(txt)]): the value, or the SyntaxError. *)
Record HttpResponse : Type :=
  mkResponse {
    resp_status : N;
    resp_text : string;
    resp_json : JS.Error + value }.

(** [resp.ok]: a status in the range 200-299. *)
Definition resp_ok (r : HttpResponse) : bool :=
  ((200 <=? resp_status r) && (resp_status r <=? 299))%N.

Inductive FetchOutcome : Type :=
| NetworkError (e : JS.Error)
| Responds (r : HttpResponse).

(** One outbound call as the network would complete it if left alone:
    after [latency] milliseconds, with [outcome]. *)
Record Exchange : Type := mkExchange { latency : Z; outcome : FetchOutcome }.

Record Env : Type :=
  mkEnv {
    GEMINI_API_KEY : option string;   (* process.env.GEMINI_API_KEY *)
    hasAbortController : bool;        (* typeof AbortController !== 'undefined' *)
    exchange : Z -> Exchange          (* the call made by attempt n *) }.

(** The request body, before [JSON.stringify]. *)
Record Part : Type := mkPart { part_text : string }.
Record Content : Type := mkContent { parts : list Part }.
Record SystemInstruction : Type :=
  mkSystemInstruction { role : string; si_parts : list Part }.
Inductive Tool : Type := googleSearch.
Record Payload : Type :=
  mkPayload {
    contents : list Content;
    systemInstruction : SystemInstruction;
    tools : list Tool }.

Inductive event : Type :=
| SetTimeout (ms : Z)                   (* the abort timer of an attempt *)
| ClearTimeout
| Abort                                 (* the timer fired: controller.abort() *)
| Fetch (url : string) (body : Payload) (* an outbound call *)
| Sleep (ms : Z)                        (* the delay before a retry *)
| ConsoleError (label : string) (what : string + thrown).

Definition trace : Type := list event.

(** *** Computations: a trace and a result or an exception *)

Inductive outcome_of (A : Type) : Type :=
| Returned (a : A)
| Threw (e : thrown).
Arguments Returned {A} a.
Arguments Threw {A} e.

Definition M (A : Type) : Type := (trace * outcome_of A)%type.

Definition ret {A} (a : A) : M A := ([], Returned a).
Definition throw {A} (e : thrown) : M A := ([], Threw e).
Definition emit (ev : event) : M unit := ([ev], Returned tt).

Definition bind {A B} (m : M A) (k : A -> M B) : M B :=
  match m with
  | (t1, Returned a) => let (t2, r) := k a in ((t1 ++ t2)%list, r)
  | (t1, Threw e) => (t1, Threw e)
  end.

(** [try { m } catch (err) { handler err }] *)
Definition try_catch {A} (m : M A) (handler : thrown -> M A) : M A :=
  match m with
  | (t1, Threw e) => let (t2, r) := handler e in ((t1 ++ t2)%list, r)
  | done => done
  end.

Declare Scope js_scope.
Delimit Scope js_scope with js.
Notation "x <- c ;; k" := (bind c (fun x => k))
  (at level 100, c at next level, right associativity) : js_scope.
Notation "c ;; k" := (bind c (fun _ => k))
  (at level 100, right associativity) : js_scope.
Open Scope js_scope.

Definition fetches (t : trace) : nat :=
  length (filter (fun ev => match ev with Fetch _ _ => true | _ => false end) t).

Definition sleeps (t : trace) : list Z :=
  flat_map (fun ev => match ev with Sleep ms => [ms] | _ => [] end) t.

Definition timers (t : trace) : list Z :=
  flat_map (fun ev => match ev with SetTimeout ms => [ms] | _ => [] end) t.

Definition maxAttempts : Z := 2.
Definition baseTimeoutMs : Z := 8000.

(** What one iteration of the [for] loop ends with. *)
Inductive iteration (A : Type) : Type :=
| Continue
| Return (a : A).
Arguments Continue {A}.
Arguments Return {A} a.

(** The [payload] constant of [callGemini]. *)
Definition build_payload
    (promptText systemInstruction : string) (language : option string)
  : Payload :=
  let finalSystemInstruction :=
    buildFinalSystemInstruction (Some systemInstruction) language in
  {| contents := [ {| parts := [ {| part_text := promptText |} ] |} ];
     systemInstruction :=
       {| role := "system";
          si_parts := [ {| part_text := finalSystemInstruction |} ] |};
     tools := [ googleSearch ] |}.

Section WithEnv.

Variable env : Env.

Definition key_configured : bool :=
  match GEMINI_API_KEY env with
  | Some k => str_truthy k
  | None => false
  end.

Definition GEMINI_API_URL : string :=
  "https://generativelanguage.googleapis.com/v1beta/models/gemini-2.5-flash:generateContent?key="
  ++ match GEMINI_API_KEY env with Some k => k | None => "undefined" end.

(** [await fetch(url, {..., signal: controller?.signal})] while a timer
    of [timer] ms stands that aborts the controller, if there is one. *)
Definition fetch (attempt timer : Z) (url : string) (body : Payload)
  : M HttpResponse :=
  emit (Fetch url body) ;;
  if hasAbortController env && (timer <=? latency (exchange env attempt))
  then emit Abort ;; throw (ThrownOther AbortError)
  else
    match outcome (exchange env attempt) with
    | NetworkError e => throw (ThrownOther e)
    | Responds r => ret r
    end.

(** [details] of a non-ok response:
    [details = txt; try { details = JSON.parse(txt).error || txt } catch {}] *)
Definition error_details (resp : HttpResponse) : value :=
  let txt := VStr (resp_text resp) in
  match resp_json resp with
  | inl _ => txt
  | inr parsed =>
      match member parsed "error" with
      | None => txt
      | Some err => or_else err txt
      end
  end.

(** [result?.candidates?.[0]] *)
Definition first_candidate (result : value) : value :=
  opt_index0 (opt_member result "candidates").

(** [candidate?.content?.parts?.[0]?.text] *)
Definition candidate_text (candidate : value) : value :=
  opt_member
    (opt_index0 (opt_member (opt_member candidate "content") "parts"))
    "text".

(** The [try] block of an attempt, from the response on. *)
Definition read_response (resp : HttpResponse) : M GeminiResult :=
  if negb (resp_ok resp) then
    throw (ThrownGemini
             (mkGeminiAPIError
                ("Gemini API Error: " ++ show_N (resp_status resp))
                (Some (resp_status resp))
                (error_details resp)))
  else
    match resp_json resp with
    | inl syntax_error => throw (ThrownOther syntax_error)
    | inr result =>
        let candidate := first_candidate result in
        let text := candidate_text candidate in
        if negb (truthy text) then
          throw (ThrownGemini
                   (mkGeminiAPIError
                      "Could not parse response from Gemini API."
                      (Some 500%N) result))
        else
          match parseCandidateSources candidate with
          | inl e => throw (ThrownOther e)
          | inr sources => ret (mkResult text sources)
          end
    end.

(** The final [throw]s of the [catch] block. *)
Definition normalize (err : thrown) : GeminiAPIError :=
  match err with
  | ThrownGemini e => e
  | ThrownOther e =>
      if (name e =? "AbortError")%string
      then GeminiAPIError_new "Request to Gemini timed out"
      else GeminiAPIError_new
             (if str_truthy (message e) then message e
              else "Unknown error calling Gemini")
  end.

(** The [try] block of an attempt. *)
Definition attempt_try (payload : Payload) (attempt : Z) : M GeminiResult :=
  resp <- fetch attempt (baseTimeoutMs * attempt) GEMINI_API_URL payload ;;
  emit ClearTimeout ;;
  read_response resp.

(** The [catch] block of an attempt. *)
Definition attempt_catch (attempt : Z) (err : thrown)
  : M (iteration GeminiResult) :=
  emit ClearTimeout ;;
  let isLast := attempt =? maxAttempts in
  if negb isLast then
    let delayMs := 200 * attempt in
    emit (Sleep delayMs) ;;
    ret Continue
  else throw (ThrownGemini (normalize err)).

(** The body of the [for] loop. *)
Definition attempt_body (payload : Payload) (attempt : Z)
  : M (iteration GeminiResult) :=
  emit (SetTimeout (baseTimeoutMs * attempt)) ;;
  try_catch
    (r <- attempt_try payload attempt ;; ret (Return r))
    (attempt_catch attempt).

(** [for (let attempt = 1; attempt <= maxAttempts; attempt++)], over the
    attempt numbers still to run, and the [throw] after the loop. *)
Fixpoint attempt_loop (payload : Payload) (attempts : list Z)
  : M GeminiResult :=
  match attempts with
  | [] => throw (ThrownGemini (GeminiAPIError_new "Unexpected error in callGemini"))
  | attempt :: later =>
      it <- attempt_body payload attempt ;;
      match it with
      | Return r => ret r
      | Continue => attempt_loop payload later
      end
  end.

Definition attempt_numbers : list Z :=
  map Z.of_nat (seq 1 (Z.to_nat maxAttempts)).

Definition callGemini
    (promptText : string) (systemInstruction : string)
    (language : option string) : M GeminiResult :=
  if negb key_configured then
    throw (ThrownGemini
             (GeminiAPIError_new "Server-side Gemini API key not configured."))
  else if negb (str_truthy promptText) || negb (str_truthy (trim promptText)) then
    throw (ThrownGemini (GeminiAPIError_new "promptText is required"))
  else
    attempt_loop (build_payload promptText systemInstruction language)
                 attempt_numbers.

End WithEnv.

End Service.

(** ** The request handler: [server/gemini/controller.ts] *)

Module Controller.

Import Service.

(** The objects handed to [NextResponse.json]. *)
Inductive ResponseBody : Type :=
| ErrorOnly (error : string)                        (* { error } *)
| ErrorWithDetails (error : string) (details : value) (* { error, details } *)
| Result (r : GeminiResult).                         (* { text, sources } *)

Record NextResponse : Type := mkNextResponse { status : N; body : ResponseBody }.

(** [NextResponse.json(body, { status })]; the status is 200 when the
    second argument is left out. *)
Definition json (b : ResponseBody) (st : option N) : NextResponse :=
  {| status := match st with Some n => n | None => 200%N end; body := b |}.

(** [(body && typeof body === 'object') ? body : {}] *)
Definition payload_of (body : value) : value :=
  if truthy body && is_object_tag (typeof body) then body else VObj [].

(** [typeof payload[key] === 'string' ? payload[key] : undefined] *)
Definition string_field (payload : value) (key : string) : option string :=
  match opt_member payload key with
  | VStr s => Some s
  | _ => None
  end.

Definition or_empty (s : option string) : string :=
  match s with Some x => x | None => "" end.

(** [err.message] and [err.details] of a caught value. *)
Definition message_of (err : thrown) : string :=
  match err with
  | ThrownGemini e => ge_message e
  | ThrownOther e => message e
  end.

Definition details_of (err : thrown) : value :=
  match err with
  | ThrownGemini e => ge_details e
  | ThrownOther _ => VUndefined
  end.

(** The inner [catch] block. *)
Definition on_service_error (err : thrown) : M NextResponse :=
  emit (ConsoleError "Gemini service error:"
          (if str_truthy (message_of err) then inl (message_of err) else inr err)) ;;
  let st :=
    if str_truthy (message_of err) && includes (message_of err) "Gemini API Error"
    then 502%N else 500%N in
  ret (json (ErrorWithDetails
               (if str_truthy (message_of err) then message_of err
                else "Gemini service error")
               (details_of err))
            (Some st)).

Definition handleGeminiRequest (env : Env) (body : value) : M NextResponse :=
  try_catch
    (let payload := payload_of body in
     let promptText := or_empty (string_field payload "promptText") in
     let systemInstruction := or_empty (string_field payload "systemInstruction") in
     let language := string_field payload "language" in
     if negb (str_truthy promptText) then
       ret (json (ErrorOnly "Missing promptText") (Some 400%N))
     else
       try_catch
         (result <- callGemini env promptText
                      (if str_truthy systemInstruction then systemInstruction else "")
                      language ;;
          ret (json (Result result) None))
         on_service_error)
    (fun err =>
       emit (ConsoleError "Controller error:" (inr err)) ;;
       ret (json (ErrorOnly "Internal server error") (Some 500%N))).

End Controller.

(** ** Sample worlds and requests *)

Module Samples.

Import Service.

Definition not_json : JS.Error + value :=
  inl {| name := "SyntaxError"; message := "Unexpected token o in JSON" |}.

(** A provider that answers every call after 120 ms. *)
Definition answering (key : option string) (resp : HttpResponse) : Env :=
  {| GEMINI_API_KEY := key;
     hasAbortController := true;
     exchange := fun _ => {| latency := 120; outcome := Responds resp |} |}.

Definition too_many_requests : HttpResponse :=
  {| resp_status := 429; resp_text := "quota exceeded"; resp_json := not_json |}.

(** [{}]: a success without candidates. *)
Definition empty_success : HttpResponse :=
  {| resp_status := 200; resp_text := "{}"; resp_json := inr (VObj []) |}.

Definition env_429 : Env := answering (Some "test-key") too_many_requests.
Definition env_no_text : Env := answering (Some "test-key") empty_success.
Definition env_no_key : Env := answering None empty_success.

(** The connection is refused on the first call; the second never
    completes in time. *)
Definition env_slow : Env :=
  {| GEMINI_API_KEY := Some "test-key";
     hasAbortController := true;
     exchange := fun attempt =>
       if attempt =? 1
       then {| latency := 30;
               outcome := NetworkError {| name := "TypeError"; message := "fetch failed" |} |}
       else {| latency := 20000; outcome := Responds empty_success |} |}.

Definition request (prompt : string) : value :=
  VObj [("promptText", VStr prompt)].

(** Bodies with grounding attributions, as text and as parsed. *)
Definition quoted (s : string) : string := String "034" (s ++ String "034" "").

Definition grounded_text (attributions : string) : string :=
  "{" ++ quoted "candidates" ++ ":[{" ++ quoted "content" ++ ":{"
  ++ quoted "parts" ++ ":[{" ++ quoted "text" ++ ":" ++ quoted "Sunny" ++ "}]},"
  ++ quoted "groundingMetadata" ++ ":{" ++ quoted "groundingAttributions"
  ++ ":[" ++ attributions ++ "]}}]}".

Definition grounded_candidate (attributions : list value) : value :=
  VObj [("content", VObj [("parts", VArr [VObj [("text", VStr "Sunny")]])]);
        ("groundingMetadata", VObj [("groundingAttributions", VArr attributions)])].

Definition grounded (text : string) (attributions : list value) : HttpResponse :=
  {| resp_status := 200;
     resp_text := grounded_text text;
     resp_json := inr (VObj [("candidates", VArr [grounded_candidate attributions])]) |}.

Definition web_text (uri title : string) : string :=
  "{" ++ quoted "web" ++ ":{" ++ quoted "uri" ++ ":" ++ quoted uri ++ ","
  ++ quoted "title" ++ ":" ++ quoted title ++ "}}".

Definition web (uri title : string) : value :=
  VObj [("web", VObj [("uri", VStr uri); ("title", VStr title)])].

(** The attributions [{web: {uri, title: "A"}}, {web: {}}]. *)
Definition two_attributions : HttpResponse :=
  grounded (web_text "https://a.example" "A" ++ ",{" ++ quoted "web" ++ ":{}}")
           [web "https://a.example" "A"; VObj [("web", VObj [])]].

(** One attribution whose title is the empty string. *)
Definition untitled_attribution : HttpResponse :=
  grounded (web_text "https://a.example" "")
           [web "https://a.example" ""].


End Samples.

(** ** Vocabulary of the properties *)

Import Service Controller.

Definition missing_prompt : M NextResponse :=
  ([], Returned {| status := 400; body := ErrorOnly "Missing promptText" |}).

(** What the handler makes of the outcome of [callGemini]. *)
Definition answer_of (run : M GeminiResult) : M NextResponse :=
  match run with
  | (t, Returned r) => (t, Returned (json (Result r) None))
  | (t, Threw e) =>
      let (t', r) := on_service_error e in ((t ++ t')%list, r)
  end.

(** The provider's response [resp] to the call of [attempt] arrives, and
    arrives before the abort timer of that attempt could fire. *)
Definition answers (env : Env) (attempt : Z) (resp : HttpResponse) : Prop :=
  outcome (exchange env attempt) = Responds resp
  /\ hasAbortController env
     && (baseTimeoutMs * attempt <=? latency (exchange env attempt)) = false.

(** Two attempts, spelled out on the outcomes of their [try] blocks. *)
Definition two_attempts (first second : M GeminiResult) : M GeminiResult :=
  match first with
  | (t1, Returned r) => (SetTimeout 8000 :: t1, Returned r)
  | (t1, Threw _) =>
      match second with
      | (t2, Returned r) =>
          ((SetTimeout 8000 :: t1)
             ++ [ClearTimeout; Sleep 200; SetTimeout 16000] ++ t2,
           Returned r)%list
      | (t2, Threw e) =>
          ((SetTimeout 8000 :: t1)
             ++ [ClearTimeout; Sleep 200; SetTimeout 16000] ++ t2 ++ [ClearTimeout],
           Threw (ThrownGemini (normalize e)))%list
      end
  end.

(** The classified error of a response whose status is not in 200-299. *)
Definition upstream_error (resp : HttpResponse) : GeminiAPIError :=
  {| ge_message := "Gemini API Error: " ++ show_N (resp_status resp);
     ge_status := Some (resp_status resp);
     ge_details := error_details resp |}.



(** The grounding-attribution list of a candidate: the array under
    [groundingMetadata.groundingAttributions], empty when the metadata or
    the list is absent. *)
Definition attributions_of (candidate : value) : list value :=
  match opt_member candidate "groundingMetadata" with
  | VObj metadata =>
      match assoc "groundingAttributions" metadata with
      | Some (VArr arr) => arr
      | _ => []
      end
  | _ => []
  end.

(** The field [key] of the [web] record of an attribution, when the
    attribution has one. *)
Definition web_field (a : value) (key : string) : option value :=
  match a with
  | VObj fields =>
      match assoc "web" fields with
      | Some (VObj web) => assoc key web
      | _ => None
      end
  | _ => None
  end.

(** The source of an attribution in the words of the specification: the
    URI and the title it has, the defaults for those it is missing. *)
Definition claimed_source (a : value) : GeminiSource :=
  {| uri := match web_field a "uri" with Some u => u | None => VStr "" end;
     title := match web_field a "title" with
              | Some t => t
              | None => VStr "External Source"
              end |}.

(** The same with the default also standing in for a falsy field. *)
Definition source_or_defaults (a : value) : GeminiSource :=
  {| uri := match web_field a "uri" with
            | Some u => if truthy u then u else VStr ""
            | None => VStr ""
            end;
     title := match web_field a "title" with
              | Some t => if truthy t then t else VStr "External Source"
              | None => VStr "External Source"
              end |}.

(** An attribution whose URI and title, where it has them, are not replaced
    by a default. *)
Definition keeps_its_fields (a : value) : Prop :=
  (forall u, web_field a "uri" = Some u -> truthy u = true \/ u = VStr "")
  /\ (forall t, web_field a "title" = Some t -> truthy t = true).

(** ** The route: [app/api/gemini/route.ts] *)

Module Route.

(** [POST]. [parsed] is what [await req.json()] gives: the body, or the
    exception of a request that is not JSON. The plain [Response] of the
    [catch] block is written as the object it serializes. *)
Definition POST (env : Env) (parsed : JS.Error + value) : M NextResponse :=
  try_catch
    (match parsed with
     | inl e => throw (ThrownOther e)
     | inr body => handleGeminiRequest env body
     end)
    (fun err =>
       emit (ConsoleError "Route error:" (inr err)) ;;
       ret {| status := 400; body := ErrorOnly "Invalid request" |}).

End Route.

(** ** The chat page: [app/page.tsx] *)

Module Page.

(** *** [escapeHtml] *)

(** [s.replace(/c/g, by)] for a pattern of one ASCII character and a
    replacement without [$]. *)
Fixpoint replace_char (c : ascii) (by_ : string) (s : string) : string :=
  match s with
  | EmptyString => EmptyString
  | String x rest =>
      if Ascii.eqb x c then by_ ++ replace_char c by_ rest
      else String x (replace_char c by_ rest)
  end.

Definition escapeHtml (s : string) : string :=
  replace_char "'" "&#39;"
    (replace_char "034" "&quot;"
       (replace_char ">" "&gt;"
          (replace_char "<" "&lt;"
             (replace_char "&" "&amp;" s)))).

(** *** [detectCity] *)

Definition commonCities : list string :=
  [
    "tokyo"; "osaka"; "kyoto"; "yokohama"; "kobe"; "nagoya"; "fukuoka"; "sapporo";
    "sendai"; "hiroshima"; "nara"; "okinawa"; "naha"; "kanazawa"; "nagasaki";
    "kagoshima"; "shizuoka"; "kumamoto"; "okayama"; "niigata"; "hamamatsu";
    "sagamihara"; "chiba"; "saitama"; "kawasaki"; "kitakyushu"; "sakai"; "new york";
    "nyc"; "los angeles"; "la"; "chicago"; "houston"; "phoenix"; "philadelphia";
    "san antonio"; "san diego"; "dallas"; "san jose"; "austin"; "jacksonville";
    "fort worth"; "columbus"; "san francisco"; "charlotte"; "indianapolis"; "seattle";
    "denver"; "washington"; "boston"; "el paso"; "nashville"; "detroit";
    "oklahoma city"; "portland"; "las vegas"; "memphis"; "louisville"; "baltimore";
    "milwaukee"; "albuquerque"; "tucson"; "fresno"; "sacramento"; "atlanta";
    "kansas city"; "miami"; "raleigh"; "omaha"; "long beach"; "virginia beach";
    "oakland"; "minneapolis"; "tulsa"; "arlington"; "tampa"; "new orleans"; "wichita";
    "cleveland"; "bakersfield"; "honolulu"; "toronto"; "vancouver"; "montreal";
    "ottawa"; "calgary"; "london"; "paris"; "berlin"; "madrid"; "rome"; "kyiv";
    "bucharest"; "vienna"; "hamburg"; "warsaw"; "budapest"; "barcelona"; "munich";
    "milan"; "prague"; "sofia"; "brussels"; "birmingham"; "cologne"; "naples";
    "stockholm"; "turin"; "marseille"; "amsterdam"; "zagreb"; "valencia"; "krakow";
    "frankfurt"; "seville"; "zaragoza"; "athens"; "riga"; "helsinki"; "rotterdam";
    "stuttgart"; "dusseldorf"; "glasgow"; "copenhagen"; "dublin"; "lisbon";
    "manchester"; "geneva"; "zurich"; "oslo"; "edinburgh"; "reykjavik"; "beijing";
    "shanghai"; "seoul"; "bangkok"; "singapore"; "jakarta"; "delhi"; "mumbai";
    "manila"; "taipei"; "hanoi"; "ho chi minh city"; "kuala lumpur"; "hong kong";
    "dubai"; "istanbul"; "dhaka"; "karachi"; "riyadh"; "tel aviv"; "doha"; "abu dhabi";
    "sydney"; "melbourne"; "brisbane"; "perth"; "adelaide"; "auckland"; "wellington";
    "christchurch"; "sao paulo"; "buenos aires"; "rio de janeiro"; "bogota"; "lima";
    "santiago"; "caracas"; "cairo"; "lagos"; "kinshasa"; "johannesburg"; "cape town";
    "casablanca"; "nairobi"; "addis ababa"
  ].

(** [Object.entries(cityMap)]: the keys are no integers and none is written
    twice, so the entries come in the order of the literal. *)
Definition cityMap : list (string * string) :=
  [
    ("東京", "Tokyo"); ("とうきょう", "Tokyo"); ("東京都", "Tokyo"); ("大阪", "Osaka");
    ("おおさか", "Osaka"); ("大阪市", "Osaka"); ("横浜", "Yokohama"); ("よこはま", "Yokohama");
    ("名古屋", "Nagoya"); ("なごや", "Nagoya"); ("札幌", "Sapporo"); ("さっぽろ", "Sapporo");
    ("福岡", "Fukuoka"); ("ふくおか", "Fukuoka"); ("神戸", "Kobe"); ("こうべ", "Kobe");
    ("京都", "Kyoto"); ("きょうと", "Kyoto"); ("川崎", "Kawasaki"); ("かわさき", "Kawasaki");
    ("さいたま", "Saitama"); ("さいたまし", "Saitama"); ("広島", "Hiroshima");
    ("ひろしま", "Hiroshima"); ("仙台", "Sendai"); ("せんだい", "Sendai"); ("北九州", "Kitakyushu");
    ("きたきゅうしゅう", "Kitakyushu"); ("千葉", "Chiba"); ("ちば", "Chiba"); ("堺", "Sakai");
    ("さかい", "Sakai"); ("新潟", "Niigata"); ("にいがた", "Niigata"); ("浜松", "Hamamatsu");
    ("はままつ", "Hamamatsu"); ("熊本", "Kumamoto"); ("くまもと", "Kumamoto");
    ("相模原", "Sagamihara"); ("さがみはら", "Sagamihara"); ("静岡", "Shizuoka");
    ("しずおか", "Shizuoka"); ("岡山", "Okayama"); ("おかやま", "Okayama"); ("鹿児島", "Kagoshima");
    ("かごしま", "Kagoshima"); ("八王子", "Hachioji"); ("はちおうじ", "Hachioji");
    ("姫路", "Himeji"); ("ひめじ", "Himeji"); ("宇都宮", "Utsunomiya");
    ("うつのみや", "Utsunomiya"); ("松山", "Matsuyama"); ("まつやま", "Matsuyama");
    ("東大阪", "Higashiosaka"); ("ひがしおおさか", "Higashiosaka"); ("西宮", "Nishinomiya");
    ("にしのみや", "Nishinomiya"); ("尼崎", "Amagasaki"); ("あまがさき", "Amagasaki");
    ("船橋", "Funabashi"); ("ふなばし", "Funabashi"); ("金沢", "Kanazawa");
    ("かなざわ", "Kanazawa"); ("豊田", "Toyota"); ("とよた", "Toyota"); ("高松", "Takamatsu");
    ("たかまつ", "Takamatsu"); ("富山", "Toyama"); ("とやま", "Toyama"); ("長崎", "Nagasaki");
    ("ながさき", "Nagasaki"); ("岐阜", "Gifu"); ("ぎふ", "Gifu"); ("宮崎", "Miyazaki");
    ("みやざき", "Miyazaki"); ("長野", "Nagano"); ("ながの", "Nagano"); ("和歌山", "Wakayama");
    ("わかやま", "Wakayama"); ("奈良", "Nara"); ("なら", "Nara"); ("大分", "Oita");
    ("おおいた", "Oita"); ("旭川", "Asahikawa"); ("あさひかわ", "Asahikawa"); ("いわき", "Iwaki");
    ("高知", "Kochi"); ("こうち", "Kochi"); ("高崎", "Takasaki"); ("たかさき", "Takasaki");
    ("郡山", "Koriyama"); ("こおりやま", "Koriyama"); ("那覇", "Naha"); ("なは", "Naha");
    ("川越", "Kawagoe"); ("かわごえ", "Kawagoe"); ("秋田", "Akita"); ("あきた", "Akita");
    ("大津", "Otsu"); ("おおつ", "Otsu"); ("越谷", "Koshigaya"); ("こしがや", "Koshigaya");
    ("前橋", "Maebashi"); ("まえばし", "Maebashi"); ("四日市", "Yokkaichi");
    ("よっかいち", "Yokkaichi"); ("盛岡", "Morioka"); ("もりおか", "Morioka"); ("久留米", "Kurume");
    ("くるめ", "Kurume"); ("春日井", "Kasugai"); ("かすがい", "Kasugai"); ("青森", "Aomori");
    ("あおもり", "Aomori"); ("明石", "Akashi"); ("あかし", "Akashi"); ("函館", "Hakodate");
    ("はこだて", "Hakodate"); ("福島", "Fukushima"); ("ふくしま", "Fukushima"); ("水戸", "Mito");
    ("みと", "Mito"); ("福井", "Fukui"); ("ふくい", "Fukui"); ("甲府", "Kofu"); ("こうふ", "Kofu");
    ("津", "Tsu"); ("つ", "Tsu"); ("徳島", "Tokushima"); ("とくしま", "Tokushima");
    ("松江", "Matsue"); ("まつえ", "Matsue"); ("鳥取", "Tottori"); ("とっとり", "Tottori");
    ("山口", "Yamaguchi"); ("やまぐち", "Yamaguchi"); ("佐賀", "Saga"); ("さが", "Saga");
    ("ソウル", "Seoul"); ("北京", "Beijing"); ("上海", "Shanghai"); ("バンコク", "Bangkok");
    ("シンガポール", "Singapore"); ("台北", "Taipei"); ("香港", "Hong Kong"); ("マニラ", "Manila");
    ("ジャカルタ", "Jakarta"); ("クアラルンプール", "Kuala Lumpur"); ("ハノイ", "Hanoi");
    ("ホーチミン", "Ho Chi Minh City"); ("ニューデリー", "New Delhi"); ("デリー", "Delhi");
    ("ムンバイ", "Mumbai"); ("ドバイ", "Dubai"); ("イスタンブール", "Istanbul");
    ("ニューヨーク", "New York"); ("ロサンゼルス", "Los Angeles"); ("ロス", "Los Angeles");
    ("シカゴ", "Chicago"); ("ヒューストン", "Houston"); ("フェニックス", "Phoenix");
    ("フィラデルフィア", "Philadelphia"); ("サンアントニオ", "San Antonio"); ("サンディエゴ", "San Diego");
    ("ダラス", "Dallas"); ("サンノゼ", "San Jose"); ("サンフランシスコ", "San Francisco");
    ("シアトル", "Seattle"); ("ワシントン", "Washington"); ("ボストン", "Boston");
    ("ラスベガス", "Las Vegas"); ("マイアミ", "Miami"); ("アトランタ", "Atlanta");
    ("ホノルル", "Honolulu"); ("バンクーバー", "Vancouver"); ("トロント", "Toronto");
    ("モントリオール", "Montreal"); ("メキシコシティ", "Mexico City"); ("ロンドン", "London");
    ("パリ", "Paris"); ("ベルリン", "Berlin"); ("マドリード", "Madrid"); ("ローマ", "Rome");
    ("アムステルダム", "Amsterdam"); ("ウィーン", "Vienna"); ("ダブリン", "Dublin");
    ("ブリュッセル", "Brussels"); ("リスボン", "Lisbon"); ("チューリッヒ", "Zurich");
    ("ジュネーブ", "Geneva"); ("プラハ", "Prague"); ("ブダペスト", "Budapest"); ("ワルシャワ", "Warsaw");
    ("アテネ", "Athens"); ("ストックホルム", "Stockholm"); ("オスロ", "Oslo");
    ("コペンハーゲン", "Copenhagen"); ("ヘルシンキ", "Helsinki"); ("モスクワ", "Moscow");
    ("バルセロナ", "Barcelona"); ("ミラノ", "Milan"); ("ミュンヘン", "Munich"); ("シドニー", "Sydney");
    ("メルボルン", "Melbourne"); ("ブリスベン", "Brisbane"); ("パース", "Perth");
    ("オークランド", "Auckland"); ("ウェリントン", "Wellington"); ("サンパウロ", "Sao Paulo");
    ("リオデジャネイロ", "Rio de Janeiro"); ("ブエノスアイレス", "Buenos Aires"); ("リマ", "Lima");
    ("サンティアゴ", "Santiago"); ("カイロ", "Cairo"); ("ヨハネスブルグ", "Johannesburg");
    ("ケープタウン", "Cape Town"); ("ナイロビ", "Nairobi"); ("ラゴス", "Lagos")
  ].

Definition upper_ascii (c : ascii) : ascii :=
  let n := N_of_ascii c in
  if ((97 <=? n) && (n <=? 122))%N then ascii_of_N (n - 32) else c.

(** [city.charAt(0).toUpperCase() + city.slice(1)] for a name that starts
    with an ASCII letter, as every name of [commonCities] does. *)
Definition capitalize (city : string) : string :=
  match city with
  | EmptyString => EmptyString
  | String c rest => String (upper_ascii c) rest
  end.

(** [for (const city of commonCities) if (lowerText.includes(city)) return ...] *)
Fixpoint first_city (lowerText : string) (cities : list string) : option string :=
  match cities with
  | [] => None
  | city :: rest =>
      if includes lowerText city then Some (capitalize city)
      else first_city lowerText rest
  end.

(** [for (const [key, val] of Object.entries(cityMap)) if (lowerText.includes(key)) return val] *)
Fixpoint first_entry (lowerText : string) (entries : list (string * string))
  : option string :=
  match entries with
  | [] => None
  | (key, val) :: rest =>
      if includes lowerText key then Some val
      else first_entry lowerText rest
  end.

(** *** The scroll handler of the header *)

(** The refs and the state the handler reads and writes; [scheduled] counts
    the callbacks handed to [requestAnimationFrame] that have not run yet. *)
Record Header : Type :=
  mkHeader {
    compactRef : bool;
    lastToggleRef : Z;
    tickingRef : bool;
    scheduled : nat;
    showScrollButton : bool;
    compactHeader : bool }.

(** What a frame callback reads: the window, the document and the clock. *)
Record Frame : Type :=
  mkFrame {
    scrollY : float;
    scrollTop : float;
    innerHeight : float;
    scrollHeight : float;
    now : Z }.

Definition float_truthy (x : float) : bool :=
  negb (PrimFloat.eqb x 0%float || negb (PrimFloat.eqb x x)).

(** [window.scrollY || doc.scrollTop || 0] *)
Definition scroll_position (f : Frame) : float :=
  if float_truthy (scrollY f) then scrollY f
  else if float_truthy (scrollTop f) then scrollTop f
  else 0%float.

Definition ENTER_COMPACT_AT : float := 120%float.
Definition EXIT_COMPACT_AT : float := 48%float.

(** [handleScroll], up to the call of [requestAnimationFrame]. *)
Definition handleScroll (h : Header) : Header :=
  if tickingRef h then h
  else
    {| compactRef := compactRef h;
       lastToggleRef := lastToggleRef h;
       tickingRef := true;
       scheduled := S (scheduled h);
       showScrollButton := showScrollButton h;
       compactHeader := compactHeader h |}.

(** The callback of [requestAnimationFrame], with its [finally]. *)
Definition on_frame (h : Header) (f : Frame) : Header :=
  let y := scroll_position f in
  let nearBottom :=
    PrimFloat.leb (PrimFloat.sub (scrollHeight f) 120%float)
                  (PrimFloat.add (innerHeight f) y) in
  let nextCompact :=
    if negb (compactRef h) && PrimFloat.ltb ENTER_COMPACT_AT y then true
    else if compactRef h && PrimFloat.ltb y EXIT_COMPACT_AT then false
    else compactRef h in
  let toggles :=
    negb (Bool.eqb nextCompact (compactRef h))
    && (250 <? now f - lastToggleRef h) in
  {| compactRef := if toggles then nextCompact else compactRef h;
     lastToggleRef := if toggles then now f else lastToggleRef h;
     tickingRef := false;
     scheduled := pred (scheduled h);
     showScrollButton := negb nearBottom;
     compactHeader := if toggles then nextCompact else compactHeader h |}.

(** What happens to the header: a scroll event, or the browser running a
    scheduled callback. *)
Inductive header_event : Type :=
| Scrolled
| FrameRun (f : Frame).

(** A callback runs only if one is scheduled. *)
Definition header_step (h : Header) (ev : header_event) : Header :=
  match ev with
  | Scrolled => handleScroll h
  | FrameRun f => if Nat.eqb (scheduled h) 0 then h else on_frame h f
  end.

(** The refs and state as [useRef] and [useState] create them, after the
    call of [handleScroll] that the effect makes when it mounts. *)
Definition header_mounted : Header :=
  handleScroll
    {| compactRef := false; lastToggleRef := 0; tickingRef := false;
       scheduled := 0; showScrollButton := false; compactHeader := false |}.

Definition header_run (events : list header_event) : Header :=
  fold_left header_step events header_mounted.

(** *** Messages *)

Inductive MessageType : Type := user | assistant | system.

Record Source : Type := mkSource { uri : string; title : string }.

(** [ChatMessage] without its [timestamp], which nothing here reads. *)
Record ChatMessage (W : Type) : Type :=
  mkMessage {
    id : string;
    type : MessageType;
    content : string;
    weatherData : option W;
    sources : option (list Source) }.
Arguments mkMessage {W}.
Arguments id {W}.
Arguments type {W}.
Arguments content {W}.
Arguments weatherData {W}.
Arguments sources {W}.

Definition is_system (t : MessageType) : bool :=
  match t with system => true | _ => false end.

Definition newline : string := String "010" EmptyString.

(** [parts.join(sep)] *)
Fixpoint join (sep : string) (parts : list string) : string :=
  match parts with
  | [] => EmptyString
  | [x] => x
  | x :: rest => x ++ sep ++ join sep rest
  end.

(** [messages.slice(-5)] *)
Definition last_five {A} (l : list A) : list A := skipn (length l - 5) l.

(** [conversationContext] of [handleSendMessage]. *)
Definition conversationContext {W} (messages : list (ChatMessage W)) : string :=
  join newline
    (map (fun msg =>
            (match type msg with user => "User" | _ => "Assistant" end)
            ++ ": " ++ content msg)
         (filter (fun msg => negb (is_system (type msg))) (last_five messages))).

Definition is_assistant (t : MessageType) : bool :=
  match t with assistant => true | _ => false end.

(** [[...messages].reverse().find(m => m.type === 'assistant' && m.weatherData)?.weatherData];
    a weather record is an object, hence truthy whenever it is there. *)
Definition latestAssistantWeather {W} (messages : list (ChatMessage W)) : option W :=
  match find (fun m => is_assistant (type m)
                       && match weatherData m with Some _ => true | None => false end)
             (rev messages) with
  | Some m => weatherData m
  | None => None
  end.

Definition ja_instruction : string :=
  newline ++ newline
  ++ "IMPORTANT: Please provide the response in two parts. First, write the complete response in Japanese. Then, immediately follow it with the full English translation enclosed in parentheses. "
  ++ newline ++ "Format:" ++ newline ++ "[Japanese Text]" ++ newline
  ++ "([English Translation])".

(** [enhancedQuery] of [handleSendMessage]. *)
Definition enhancedQuery {W}
    (messages : list (ChatMessage W)) (userInput voiceLanguage : string) : string :=
  let conversationContext := conversationContext messages in
  let instruction :=
    if (voiceLanguage =? "ja-JP")%string then ja_instruction else "" in
  if str_truthy conversationContext then
    "Previous conversation:" ++ newline ++ conversationContext ++ newline ++ newline
    ++ "Current question: " ++ userInput ++ instruction
  else userInput ++ instruction.

(** [s.length]: the number of UTF-16 code units of a text in UTF-8. A
    byte that continues a character counts for nothing, the first byte of a
    character of four bytes for two. *)
Fixpoint utf16_length (s : string) : nat :=
  match s with
  | EmptyString => 0
  | String c rest =>
      let b := N_of_ascii c in
      ((if (b <? 128)%N then 1
        else if (b <? 192)%N then 0
        else if (b <? 240)%N then 1
        else 2) + utf16_length rest)%nat
  end.

Section WithPlatform.

(** [String.prototype.toLowerCase], a function of the platform. *)
Variable toLowerCase : string -> string.

(** [null] is [None]; nothing in the [try] block throws. *)
Definition detectCity (text : string) : option string :=
  let lowerText := toLowerCase text in
  match first_city lowerText commonCities with
  | Some city => Some city
  | None => first_entry lowerText cityMap
  end.

(** *** [getWeatherIcon] *)

Definition getWeatherIcon (condition : string) : string :=
  let conditionLower := toLowerCase condition in
  if includes conditionLower "clear" then "☀️"
  else if includes conditionLower "cloud" then "☁️"
  else if includes conditionLower "rain" || includes conditionLower "drizzle"
       then "🌧️"
  else if includes conditionLower "thunder" then "⛈️"
  else if includes conditionLower "snow" then "🌨️"
  else "🌀".

(** *** [handleSendMessage] *)

(** [WeatherData] of [lib/constants]. *)
Variable WeatherData : Type.

(** What a call of [lib/api] rejects with: an [Error] with its message, or
    some other value. *)
Inductive Rejection : Type :=
| ErrorObject (message : string)
| OtherValue.

Record GeminiResponse : Type :=
  mkGeminiResponse { response_text : string; response_sources : list Source }.

(** [fetchWeather] and [fetchGeminiResponse] of [lib/api], by their
    outcomes. *)
Record Api : Type :=
  mkApi {
    fetchWeather : string -> Rejection + WeatherData;
    fetchGeminiResponse :
      string -> WeatherData -> string -> Rejection + GeminiResponse }.

Inductive api_call : Type :=
| WeatherCall (city : string)
| GeminiCall (query : string) (weather : WeatherData) (language : string).

(** The state the callback closes over and sets. *)
Record Chat : Type :=
  mkChat {
    userInput : string;
    location : string;
    messages : list (ChatMessage WeatherData);
    loading : bool;
    error : option string }.

Definition set_error (c : Chat) (e : option string) : Chat :=
  {| userInput := userInput c; location := location c; messages := messages c;
     loading := loading c; error := e |}.

(** The [try] block: the weather, then the answer. [location] and
    [messages] are those of the closure. *)
Definition ask (api : Api) (c : Chat) (cityForFetch voiceLanguage : string)
  : list api_call * (Rejection + (WeatherData * GeminiResponse)) :=
  let weather :=
    match fetchWeather api cityForFetch with
    | inr w => ([WeatherCall cityForFetch], inr w)
    | inl _ =>
        ([WeatherCall cityForFetch; WeatherCall (location c)],
         fetchWeather api (location c))
    end in
  match weather with
  | (calls, inl err) => (calls, inl err)
  | (calls, inr w) =>
      let query := enhancedQuery (messages c) (userInput c) voiceLanguage in
      ((calls ++ [GeminiCall query w voiceLanguage])%list,
       match fetchGeminiResponse api query w voiceLanguage with
       | inl err => inl err
       | inr response => inr (w, response)
       end)
  end.

(** One call of [handleSendMessage], with no other update of the state in
    between; [now1] and [now2] are what [Date.now()] gives for the message of
    the user and for the reply. *)
Definition handleSendMessage
    (api : Api) (c : Chat) (voiceLanguage : string) (now1 now2 : N)
  : list api_call * Chat :=
  if negb (str_truthy (trim (userInput c))) then
    ([], set_error c (Some "Please enter a message."))
  else
    let typedDetectedCity := detectCity (userInput c) in
    let detected :=
      match typedDetectedCity with
      | Some city => str_truthy city
      | None => false
      end in
    let location' :=
      match typedDetectedCity with
      | Some city =>
          if str_truthy city && negb (city =? location c)%string
          then city else location c
      | None => location c
      end in
    let cityForFetch :=
      trim (match typedDetectedCity with
            | Some city => if str_truthy city then city else location c
            | None => location c
            end) in
    if negb detected && (utf16_length cityForFetch <? 2)%nat then
      ([], {| userInput := userInput c; location := location';
              messages := messages c; loading := loading c;
              error := Some "Please provide a valid city." |})
    else
      let userMessage :=
        mkMessage (show_N now1) user (trim (userInput c)) None None in
      let (calls, outcome) := ask api c cityForFetch voiceLanguage in
      let reply :=
        match outcome with
        | inr (weather, response) =>
            mkMessage (show_N (now2 + 1)) assistant (response_text response)
                      (Some weather) (Some (response_sources response))
        | inl err =>
            mkMessage (show_N (now2 + 2)) system
                      ("❌ Error: "
                       ++ match err with
                          | ErrorObject message => message
                          | OtherValue => "An unknown error occurred"
                          end)
                      None None
        end in
      (calls,
       {| userInput := "";
          location := location';
          messages := (messages c ++ [userMessage; reply])%list;
          loading := false;
          error := None |}).

End WithPlatform.

Arguments fetchWeather {WeatherData}.
Arguments fetchGeminiResponse {WeatherData}.
Arguments WeatherCall {WeatherData}.
Arguments GeminiCall {WeatherData}.
Arguments mkChat {WeatherData}.
Arguments userInput {WeatherData}.
Arguments location {WeatherData}.
Arguments messages {WeatherData}.
Arguments loading {WeatherData}.
Arguments error {WeatherData}.
Arguments ask {WeatherData}.
Arguments handleSendMessage toLowerCase {WeatherData}.

End Page.

(** ** Vocabulary of the further properties *)

(** A response with a status in 200-299 whose body parses to [result], in
    which the first part of the first candidate has a text. *)
Definition has_text (resp : HttpResponse) (result : value) : Prop :=
  resp_ok resp = true
  /\ resp_json resp = inr result
  /\ truthy (candidate_text (first_candidate result)) = true.

(** The discipline of the abort timer along a trace, [armed] telling whether
    a timer stands: a timer is armed only when none stands, a call is made
    only under a timer, a timer fires only if it stands, no delay is taken
    under a timer, and none stands at the end. *)
Fixpoint well_timed (armed : bool) (t : trace) : bool :=
  match t with
  | [] => negb armed
  | SetTimeout _ :: rest => negb armed && well_timed true rest
  | ClearTimeout :: rest => well_timed false rest
  | Abort :: rest => armed && well_timed false rest
  | Fetch _ _ :: rest => armed && well_timed armed rest
  | Sleep _ :: rest => negb armed && well_timed armed rest
  | ConsoleError _ _ :: rest => well_timed armed rest
  end.

(** The traces an attempt's [try] block can leave when it fails, [call]
    being its outbound call. *)
Definition failed_attempts (call : event) : list trace :=
  [ [call; Abort]; [call]; [call; ClearTimeout] ].

(** The traces a run of [callGemini] can leave. *)
Definition possible_traces (call : event) : list trace :=
  [] :: [SetTimeout 8000; call; ClearTimeout]
  :: flat_map
       (fun first =>
          (SetTimeout 8000 :: first
             ++ [ClearTimeout; Sleep 200; SetTimeout 16000; call; ClearTimeout])%list
          :: map (fun second =>
                    (SetTimeout 8000 :: first
                       ++ [ClearTimeout; Sleep 200; SetTimeout 16000]
                       ++ second ++ [ClearTimeout])%list)
                 (failed_attempts call))
       (failed_attempts call).


(** The log line of the outer [catch] of the handler. *)
Definition is_controller_error (ev : event) : bool :=
  match ev with
  | ConsoleError label _ => (label =? "Controller error:")%string
  | _ => false
  end.

(** The entity [escapeHtml] writes for one character, or the character. *)
Definition escape_char (c : ascii) : string :=
  if Ascii.eqb c "&" then "&amp;"
  else if Ascii.eqb c "<" then "&lt;"
  else if Ascii.eqb c ">" then "&gt;"
  else if Ascii.eqb c "034" then "&quot;"
  else if Ascii.eqb c "'" then "&#39;"
  else String c EmptyString.

(** Escaping in one pass, character by character. *)
Fixpoint escape_each (s : string) : string :=
  match s with
  | EmptyString => EmptyString
  | String c rest => escape_char c ++ escape_each rest
  end.

(** The characters that open or close a tag or an attribute value. *)
Definition is_markup_char (c : ascii) : bool :=
  Ascii.eqb c "<" || Ascii.eqb c ">" || Ascii.eqb c "034" || Ascii.eqb c "'".

Fixpoint has_char (p : ascii -> bool) (s : string) : bool :=
  match s with
  | EmptyString => false
  | String c rest => p c || has_char p rest
  end.

(** [toLowerCase] on texts of ASCII characters; other bytes are kept. *)
Definition lower_ascii_char (c : ascii) : ascii :=
  let n := N_of_ascii c in
  if ((65 <=? n) && (n <=? 90))%N then ascii_of_N (n + 32) else c.

Fixpoint lower_ascii (s : string) : string :=
  match s with
  | EmptyString => EmptyString
  | String c rest => String (lower_ascii_char c) (lower_ascii rest)
  end.

(** The names of [commonCities] that contain the earlier name "la". *)
Definition la_shadowed : list string :=
  [ "philadelphia"; "dallas"; "oklahoma city"; "portland"; "las vegas";
    "atlanta"; "oakland"; "cleveland"; "milan"; "glasgow"; "manila";
    "kuala lumpur"; "adelaide"; "auckland"; "lagos"; "casablanca" ].

(** The names of [commonCities] up to "la". *)
Definition cities_before_la : list string := firstn 30 Page.commonCities.

(** Checks that no entry with the value [v] can be the first whose key
    occurs in a text: each of them has a key that contains the key of an
    entry before it ([earlier] holds the keys met so far). *)
Fixpoint never_selected
    (v : string) (earlier : list string) (entries : list (string * string)) : bool :=
  match entries with
  | [] => true
  | (key, val) :: rest =>
      (negb (val =? v)%string || existsb (fun k => includes key k) earlier)
      && never_selected v (key :: earlier) rest
  end.

(** What holds of the header between any two events: at most one frame
    callback is scheduled, [tickingRef] says whether one is, and the state
    [compactHeader] agrees with [compactRef]. *)
Definition header_invariant (h : Page.Header) : Prop :=
  (Page.scheduled h <= 1)%nat
  /\ Page.tickingRef h = Nat.eqb (Page.scheduled h) 1
  /\ Page.compactHeader h = Page.compactRef h.


(** A weather service that knows Osaka only, and an assistant that answers. *)
Definition sample_api : Page.Api string :=
  {| Page.fetchWeather := fun city =>
       if (city =? "Osaka")%string then inr "Osaka: light rain, 18 C"
       else inl (Page.ErrorObject "City not found");
     Page.fetchGeminiResponse := fun query weather language =>
       inr {| Page.response_text := "Take an umbrella.";
              Page.response_sources := [] |} |}.

(** * Properties *)

(** ** Strings and truthiness *)

Lemma str_truthy_false (s : string) : str_truthy s = false -> s = "".
Proof.
  unfold str_truthy. destruct (String.eqb_spec s ""); [trivial | discriminate].
Qed.

Lemma str_truthy_true (s : string) : s <> "" -> str_truthy s = true.
Proof.
  unfold str_truthy. destruct (String.eqb_spec s ""); [contradiction | reflexivity].
Qed.

Lemma str_truthy_or_empty (s : string) : (if str_truthy s then s else "") = s.
Proof.
  destruct (str_truthy s) eqn:E; [reflexivity | symmetry; now apply str_truthy_false].
Qed.

Lemma language_is_false (language : option string) (tag : string) :
  language <> Some tag -> language_is language tag = false.
Proof.
  destruct language as [l|]; simpl; intros H; [|reflexivity].
  destruct (String.eqb_spec l tag); [subst; contradiction | reflexivity].
Qed.

Lemma prefix_app (a b : string) : String.prefix a (a ++ b) = true.
Proof.
  induction a as [|c a IH]; simpl.
  - now destruct b.
  - destruct (Ascii.ascii_dec c c); [exact IH | contradiction].
Qed.

Lemma includes_starts_with (s sub : string) :
  starts_with s sub = true -> includes s sub = true.
Proof. destruct s; simpl; intros ->; reflexivity. Qed.

Lemma includes_app (a b : string) : includes (a ++ b) a = true.
Proof. apply includes_starts_with, prefix_app. Qed.

(** ** The request builder *)

(** C5. For a language other than ["ja-JP"] and ["en-US"], an absent one
    included, the composed system instruction is the input instruction, byte
    for byte (the empty string for an absent instruction), and that is the
    text the payload carries. *)
Theorem C5_other_language_keeps_instruction
    (instruction prompt : string) (language : option string) :
  language <> Some "ja-JP" ->
  language <> Some "en-US" ->
  buildFinalSystemInstruction (Some instruction) language = instruction
  /\ buildFinalSystemInstruction None language = ""
  /\ si_parts (systemInstruction (build_payload prompt instruction language))
     = [ {| part_text := instruction |} ].
Proof.
  intros Hja Hen.
  assert (E : forall si, buildFinalSystemInstruction si language
                         = match si with Some s => s | None => "" end).
  { intros si. unfold buildFinalSystemInstruction.
    rewrite (language_is_false _ _ Hja), (language_is_false _ _ Hen).
    destruct si as [s|]; [apply str_truthy_or_empty | reflexivity]. }
  repeat split.
  - apply (E (Some instruction)).
  - apply (E None).
  - unfold build_payload; simpl. now rewrite (E (Some instruction)).
Qed.

Lemma C5_other_language_witness :
  buildFinalSystemInstruction (Some "You are a weather assistant.") (Some "fr-FR")
  = "You are a weather assistant."
  /\ buildFinalSystemInstruction (Some "You are a weather assistant.") None
     = "You are a weather assistant.".
Proof.
  split.
  - apply (C5_other_language_keeps_instruction
             "You are a weather assistant." "Rain in Osaka?" (Some "fr-FR"));
      discriminate.
  - apply (C5_other_language_keeps_instruction
             "You are a weather assistant." "Rain in Osaka?" None);
      discriminate.
Defined.

(** ** Requests that never reach the network *)

Lemma handler_without_prompt (env : Env) (body : value) :
  or_empty (string_field (payload_of body) "promptText") = "" ->
  handleGeminiRequest env body = missing_prompt.
Proof.
  intros H. unfold handleGeminiRequest. rewrite H. reflexivity.
Qed.

Lemma handler_with_prompt (env : Env) (body : value) :
  or_empty (string_field (payload_of body) "promptText") <> "" ->
  handleGeminiRequest env body
  = answer_of
      (callGemini env
         (or_empty (string_field (payload_of body) "promptText"))
         (or_empty (string_field (payload_of body) "systemInstruction"))
         (string_field (payload_of body) "language")).
Proof.
  intros H. unfold handleGeminiRequest.
  rewrite (str_truthy_true _ H), str_truthy_or_empty. cbn [negb].
  destruct (callGemini _ _ _ _) as [t [r|e]]; cbn.
  - now rewrite app_nil_r.
  - reflexivity.
Qed.

Lemma payload_of_object (fields : list (string * value)) :
  payload_of (VObj fields) = VObj fields.
Proof. reflexivity. Qed.

Lemma string_field_object (fields : list (string * value)) (key s : string) :
  assoc key fields = Some (VStr s) ->
  string_field (VObj fields) key = Some s.
Proof. unfold string_field, opt_member, member. now intros ->. Qed.

(** A request object with a non-empty [promptText] reaches the service. *)
Lemma handler_on_object
    (env : Env) (fields : list (string * value)) (p : string) :
  assoc "promptText" fields = Some (VStr p) ->
  p <> "" ->
  handleGeminiRequest env (VObj fields)
  = answer_of
      (callGemini env p
         (or_empty (string_field (VObj fields) "systemInstruction"))
         (string_field (VObj fields) "language")).
Proof.
  intros Hfield Hp.
  assert (E : or_empty (string_field (payload_of (VObj fields)) "promptText") = p).
  { rewrite payload_of_object, (string_field_object _ _ _ Hfield). reflexivity. }
  assert (R := handler_with_prompt env (VObj fields)).
  rewrite E in R. now rewrite (R Hp).
Qed.

(** C7. Without the credential in the environment (unset, or set to the
    empty string) [callGemini] raises the configuration error with no event
    at all, hence before any network activity, whatever the prompt: the
    check comes before the check of the prompt. *)
Theorem C7_missing_credential_fails_first
    (env : Env) (promptText instruction : string) (language : option string) :
  GEMINI_API_KEY env = None \/ GEMINI_API_KEY env = Some "" ->
  callGemini env promptText instruction language
  = ([], Threw (ThrownGemini
                  {| ge_message := "Server-side Gemini API key not configured.";
                     ge_status := None;
                     ge_details := VUndefined |})).
Proof.
  intros H. unfold callGemini, key_configured.
  destruct H as [-> | ->]; reflexivity.
Qed.

Lemma C7_missing_credential_witness :
  GEMINI_API_KEY Samples.env_no_key = None
  /\ fetches (fst (callGemini Samples.env_no_key "Will it rain in Pune?" "" None)) = 0%nat
  /\ fetches (fst (callGemini Samples.env_no_key "   " "" None)) = 0%nat.
Proof.
  split; [reflexivity|].
  split.
  - rewrite (C7_missing_credential_fails_first
               Samples.env_no_key "Will it rain in Pune?" "" None);
      [reflexivity | left; reflexivity].
  - rewrite (C7_missing_credential_fails_first Samples.env_no_key "   " "" None);
      [reflexivity | left; reflexivity].
Defined.

(** C10. A body that is not an object, or whose [promptText] is not a
    string, is answered with status 400 and [{error: "Missing promptText"}],
    with no event: neither the service nor the internal-error path runs. *)
Theorem C10_malformed_body_is_missing_prompt (env : Env) (body : value) :
  (forall fields, body <> VObj fields)
  \/ (forall s, opt_member body "promptText" <> VStr s) ->
  handleGeminiRequest env body
  = ([], Returned {| status := 400; body := ErrorOnly "Missing promptText" |}).
Proof.
  intros H. apply handler_without_prompt.
  destruct body as [| |b|x|s|items|fields];
    try (unfold payload_of; cbn [typeof is_object_tag];
         rewrite ?andb_false_r; reflexivity).
  rewrite payload_of_object. unfold string_field.
  destruct H as [H | H]; [now contradiction (H fields)|].
  destruct (opt_member (VObj fields) "promptText") eqn:E; try reflexivity.
  now contradiction (H s).
Qed.

Lemma C10_malformed_body_witness :
  handleGeminiRequest Samples.env_no_text (VObj [("promptText", VNull)])
  = ([], Returned {| status := 400; body := ErrorOnly "Missing promptText" |})
  /\ handleGeminiRequest Samples.env_no_text (VStr "Will it rain in Pune?")
     = ([], Returned {| status := 400; body := ErrorOnly "Missing promptText" |}).
Proof.
  split.
  - apply (C10_malformed_body_is_missing_prompt
             Samples.env_no_text (VObj [("promptText", VNull)])).
    right. intros s. discriminate.
  - apply (C10_malformed_body_is_missing_prompt
             Samples.env_no_text (VStr "Will it rain in Pune?")).
    left. intros fields. discriminate.
Defined.

Lemma callGemini_blank_prompt
    (env : Env) (p instruction : string) (language : option string) :
  key_configured env = true ->
  trim p = "" ->
  callGemini env p instruction language
  = ([], Threw (ThrownGemini (GeminiAPIError_new "promptText is required"))).
Proof.
  intros Hkey Hblank. unfold callGemini.
  rewrite Hkey, Hblank. cbn [negb str_truthy String.eqb].
  now rewrite orb_true_r.
Qed.

Lemma callGemini_without_key
    (env : Env) (p instruction : string) (language : option string) :
  key_configured env = false ->
  callGemini env p instruction language
  = ([], Threw (ThrownGemini
                  (GeminiAPIError_new "Server-side Gemini API key not configured."))).
Proof. intros Hkey. unfold callGemini. now rewrite Hkey. Qed.

(** C1, as the code has it. A [promptText] that trims to nothing never
    leads to an outbound call. The empty string is answered with status 400
    and [{error: "Missing promptText"}] before the service is invoked. A
    non-empty string of white space passes the handler's test, is refused
    by the service before any call, and is answered with status 500 and the
    message of the service. *)
Theorem C1_blank_prompt_makes_no_call
    (env : Env) (fields : list (string * value)) (s : string) :
  assoc "promptText" fields = Some (VStr s) ->
  trim s = "" ->
  fetches (fst (handleGeminiRequest env (VObj fields))) = 0%nat
  /\ (s = "" ->
      handleGeminiRequest env (VObj fields)
      = ([], Returned {| status := 400; body := ErrorOnly "Missing promptText" |}))
  /\ (s <> "" ->
      snd (handleGeminiRequest env (VObj fields))
      = Returned
          {| status := 500;
             body := ErrorWithDetails
                       (if key_configured env then "promptText is required"
                        else "Server-side Gemini API key not configured.")
                       VUndefined |}).
Proof.
  intros Hfield Hblank.
  assert (Hp : or_empty (string_field (payload_of (VObj fields)) "promptText") = s).
  { rewrite payload_of_object, (string_field_object _ _ _ Hfield). reflexivity. }
  destruct (String.eqb_spec s "") as [E | NE].
  - assert (R : handleGeminiRequest env (VObj fields) = missing_prompt).
    { apply handler_without_prompt. now rewrite Hp. }
    rewrite R. split; [reflexivity | split; [reflexivity | contradiction]].
  - rewrite (handler_on_object _ _ _ Hfield NE).
    destruct (key_configured env) eqn:Hkey.
    + rewrite (callGemini_blank_prompt _ _ _ _ Hkey Hblank).
      split; [reflexivity | split; [contradiction | reflexivity]].
    + rewrite (callGemini_without_key _ _ _ _ Hkey).
      split; [reflexivity | split; [contradiction | reflexivity]].
Qed.

Lemma C1_blank_prompt_witness :
  fetches (fst (handleGeminiRequest Samples.env_no_text (Samples.request ""))) = 0%nat
  /\ fetches (fst (handleGeminiRequest Samples.env_no_text
                     (Samples.request (String "009" " ")))) = 0%nat.
Proof.
  split.
  - apply (C1_blank_prompt_makes_no_call
             Samples.env_no_text [("promptText", VStr "")] ""); reflexivity.
  - apply (C1_blank_prompt_makes_no_call
             Samples.env_no_text
             [("promptText", VStr (String "009" " "))] (String "009" " "));
      reflexivity.
Defined.

(** C1, as stated, fails: three spaces are white space only, and the request
    is answered with status 500 and the service's message, not with status
    400 and "Missing promptText". *)
Lemma C1_whitespace_prompt_is_answered_500 :
  trim "   " = ""
  /\ snd (handleGeminiRequest Samples.env_no_text (Samples.request "   "))
     = Returned {| status := 500;
                   body := ErrorWithDetails "promptText is required" VUndefined |}
  /\ snd (handleGeminiRequest Samples.env_no_text (Samples.request "   "))
     <> Returned {| status := 400; body := ErrorOnly "Missing promptText" |}.
Proof.
  split; [reflexivity|].
  split; [reflexivity|].
  intros H. vm_compute in H. discriminate H.
Qed.

(** ** The shape of a run of [callGemini] *)

Lemma trim_nonempty (p : string) : trim p <> "" -> str_truthy p = true.
Proof. destruct p; [intros H; now contradiction H | reflexivity]. Qed.

Lemma callGemini_started
    (env : Env) (p instruction : string) (language : option string) :
  key_configured env = true ->
  trim p <> "" ->
  callGemini env p instruction language
  = attempt_loop env (build_payload p instruction language) [1; 2].
Proof.
  intros Hkey Hp. unfold callGemini.
  rewrite Hkey, (trim_nonempty _ Hp), (str_truthy_true _ Hp). reflexivity.
Qed.

Lemma attempt_loop_two (env : Env) (payload : Payload) :
  attempt_loop env payload [1; 2]
  = two_attempts (attempt_try env payload 1) (attempt_try env payload 2).
Proof.
  cbn [attempt_loop]. unfold attempt_body, attempt_catch.
  destruct (attempt_try env payload 1) as [t1 [r1 | e1]];
    destruct (attempt_try env payload 2) as [t2 [r2 | e2]];
    cbn; rewrite ?app_nil_r, <- ?app_assoc; reflexivity.
Qed.

Lemma read_response_silent (resp : HttpResponse) : fst (read_response resp) = [].
Proof.
  unfold read_response.
  destruct (resp_ok resp); cbn [negb]; [|reflexivity].
  destruct (resp_json resp) as [e | result]; [reflexivity|].
  destruct (truthy _); cbn [negb]; [|reflexivity].
  destruct (parseCandidateSources _); reflexivity.
Qed.

Lemma attempt_try_answers
    (env : Env) (payload : Payload) (attempt : Z) (resp : HttpResponse) :
  answers env attempt resp ->
  attempt_try env payload attempt
  = ([Fetch (GEMINI_API_URL env) payload; ClearTimeout], snd (read_response resp)).
Proof.
  intros [Hout Htimer]. unfold attempt_try, fetch. rewrite Htimer, Hout.
  cbn [bind emit ret app].
  generalize (read_response_silent resp).
  destruct (read_response resp) as [t [r | e]]; cbn [fst snd app];
    intros ->; reflexivity.
Qed.

Lemma attempt_try_aborted (env : Env) (payload : Payload) (attempt : Z) :
  hasAbortController env = true ->
  baseTimeoutMs * attempt <= latency (exchange env attempt) ->
  attempt_try env payload attempt
  = ([Fetch (GEMINI_API_URL env) payload; Abort], Threw (ThrownOther AbortError)).
Proof.
  intros Hc Hlate. unfold attempt_try, fetch.
  rewrite Hc. apply Z.leb_le in Hlate. rewrite Hlate. reflexivity.
Qed.

(** Every [try] block makes exactly one outbound call, arms no timer and
    takes no delay. *)
Lemma attempt_try_one_call (env : Env) (payload : Payload) (attempt : Z) :
  fetches (fst (attempt_try env payload attempt)) = 1%nat
  /\ sleeps (fst (attempt_try env payload attempt)) = []
  /\ timers (fst (attempt_try env payload attempt)) = [].
Proof.
  unfold attempt_try, fetch.
  destruct (hasAbortController env && _); [now cbn|].
  destruct (outcome (exchange env attempt)) as [e | resp]; [now cbn|].
  cbn [bind emit ret app].
  generalize (read_response_silent resp).
  destruct (read_response resp) as [t [r | e]]; cbn [fst snd app];
    intros ->; now cbn.
Qed.

(** ** Non-success statuses *)

Lemma read_response_not_ok (resp : HttpResponse) :
  resp_ok resp = false ->
  read_response resp = ([], Threw (ThrownGemini (upstream_error resp))).
Proof. intros H. unfold read_response. now rewrite H. Qed.

Lemma upstream_error_is_api_error (resp : HttpResponse) :
  str_truthy (ge_message (upstream_error resp)) = true
  /\ includes (ge_message (upstream_error resp)) "Gemini API Error" = true.
Proof.
  split; [reflexivity|].
  change (ge_message (upstream_error resp))
    with ("Gemini API Error" ++ (": " ++ show_N (resp_status resp))).
  apply includes_app.
Qed.

Lemma on_service_error_upstream (resp : HttpResponse) :
  snd (on_service_error (ThrownGemini (upstream_error resp)))
  = Returned {| status := 502;
                body := ErrorWithDetails (ge_message (upstream_error resp))
                                         (error_details resp) |}.
Proof.
  destruct (upstream_error_is_api_error resp) as [Ht Hi].
  unfold on_service_error. cbn [message_of details_of].
  rewrite Ht, Hi. reflexivity.
Qed.

Lemma fetches_app (t1 t2 : trace) :
  fetches (t1 ++ t2)%list = (fetches t1 + fetches t2)%nat.
Proof. unfold fetches. now rewrite filter_app, length_app. Qed.

Lemma sleeps_app (t1 t2 : trace) : sleeps (t1 ++ t2)%list = (sleeps t1 ++ sleeps t2)%list.
Proof. unfold sleeps. apply flat_map_app. Qed.

Lemma timers_app (t1 t2 : trace) : timers (t1 ++ t2)%list = (timers t1 ++ timers t2)%list.
Proof. unfold timers. apply flat_map_app. Qed.

(** The log line of the handler adds no call and no delay. *)
Lemma answer_of_effects (run : M GeminiResult) :
  fetches (fst (answer_of run)) = fetches (fst run)
  /\ sleeps (fst (answer_of run)) = sleeps (fst run).
Proof.
  destruct run as [t [r | e]]; [split; reflexivity|].
  unfold answer_of, on_service_error. cbn [bind emit ret fst app].
  rewrite fetches_app, sleeps_app. cbn. split; [lia | apply app_nil_r].
Qed.

(** C3. When the provider answers both attempts with a status outside
    200-299, [callGemini] makes exactly two outbound calls, with exactly one
    delay, of 200 ms (200 ms x attempt 1), between them, and the handler
    answers with status 502 and the classified error's message and details. *)
Theorem C3_status_failure_on_both_attempts
    (env : Env) (fields : list (string * value)) (p : string)
    (r1 r2 : HttpResponse) :
  key_configured env = true ->
  assoc "promptText" fields = Some (VStr p) ->
  trim p <> "" ->
  answers env 1 r1 -> resp_ok r1 = false ->
  answers env 2 r2 -> resp_ok r2 = false ->
  (exists payload,
      callGemini env p
        (or_empty (string_field (VObj fields) "systemInstruction"))
        (string_field (VObj fields) "language")
      = ([SetTimeout 8000; Fetch (GEMINI_API_URL env) payload;
          ClearTimeout; ClearTimeout;
          Sleep 200;
          SetTimeout 16000; Fetch (GEMINI_API_URL env) payload;
          ClearTimeout; ClearTimeout],
         Threw (ThrownGemini (upstream_error r2))))
  /\ fetches (fst (handleGeminiRequest env (VObj fields))) = 2%nat
  /\ sleeps (fst (handleGeminiRequest env (VObj fields))) = [200]
  /\ snd (handleGeminiRequest env (VObj fields))
     = Returned {| status := 502;
                   body := ErrorWithDetails
                             ("Gemini API Error: " ++ show_N (resp_status r2))
                             (error_details r2) |}.
Proof.
  intros Hkey Hfield Hp A1 F1 A2 F2.
  set (si := or_empty (string_field (VObj fields) "systemInstruction")).
  set (lang := string_field (VObj fields) "language").
  assert (Run : callGemini env p si lang
                = ([SetTimeout 8000; Fetch (GEMINI_API_URL env) (build_payload p si lang);
                    ClearTimeout; ClearTimeout; Sleep 200;
                    SetTimeout 16000; Fetch (GEMINI_API_URL env) (build_payload p si lang);
                    ClearTimeout; ClearTimeout],
                   Threw (ThrownGemini (upstream_error r2)))).
  { rewrite (callGemini_started _ _ _ _ Hkey Hp), attempt_loop_two.
    rewrite (attempt_try_answers _ _ _ _ A1), (attempt_try_answers _ _ _ _ A2).
    rewrite (read_response_not_ok _ F1), (read_response_not_ok _ F2).
    reflexivity. }
  assert (Hh : handleGeminiRequest env (VObj fields)
               = answer_of (callGemini env p si lang)).
  { apply (handler_on_object _ _ _ Hfield). intros ->. now apply Hp. }
  split; [now exists (build_payload p si lang)|].
  rewrite Hh.
  destruct (answer_of_effects (callGemini env p si lang)) as [-> ->].
  rewrite Run. split; [reflexivity | split; [reflexivity|]].
  cbn [answer_of].
  generalize (on_service_error_upstream r2).
  destruct (on_service_error _) as [t' r']. cbn [snd]. intros ->. reflexivity.
Qed.

Lemma C3_status_failure_witness :
  fetches (fst (handleGeminiRequest Samples.env_429
                  (Samples.request "Will it rain in Pune?"))) = 2%nat
  /\ sleeps (fst (handleGeminiRequest Samples.env_429
                    (Samples.request "Will it rain in Pune?"))) = [200]
  /\ snd (handleGeminiRequest Samples.env_429
            (Samples.request "Will it rain in Pune?"))
     = Returned {| status := 502;
                   body := ErrorWithDetails "Gemini API Error: 429"
                                            (VStr "quota exceeded") |}.
Proof.
  apply (C3_status_failure_on_both_attempts
           Samples.env_429 [("promptText", VStr "Will it rain in Pune?")]
           "Will it rain in Pune?"
           Samples.too_many_requests Samples.too_many_requests);
    try reflexivity; try (split; reflexivity).
  vm_compute. discriminate.
Defined.

(** ** Success responses without text *)


(** A failed first attempt is followed by one delay of 200 ms and a second
    call, whatever that second attempt brings. *)
Lemma two_attempts_retry (t1 : trace) (e1 : thrown) (second : M GeminiResult) :
  fetches t1 = 1%nat -> sleeps t1 = [] -> timers t1 = [] ->
  fetches (fst second) = 1%nat -> sleeps (fst second) = [] -> timers (fst second) = [] ->
  fetches (fst (two_attempts (t1, Threw e1) second)) = 2%nat
  /\ sleeps (fst (two_attempts (t1, Threw e1) second)) = [200]
  /\ timers (fst (two_attempts (t1, Threw e1) second)) = [8000; 16000].
Proof.
  intros F1 S1 T1 F2 S2 T2.
  destruct second as [t2 [r2 | e2]]; cbn [two_attempts fst] in *;
    change (SetTimeout 8000 :: t1) with ([SetTimeout 8000] ++ t1)%list;
    rewrite ?fetches_app, ?sleeps_app, ?timers_app, F1, S1, T1, F2, S2, T2;
    repeat split.
Qed.





(** ** Errors that leave [callGemini] *)

Lemma callGemini_cases
    (env : Env) (p instruction : string) (language : option string) :
  callGemini env p instruction language
  = if negb (key_configured env) then
      throw (ThrownGemini
               (GeminiAPIError_new "Server-side Gemini API key not configured."))
    else if negb (str_truthy p) || negb (str_truthy (trim p)) then
      throw (ThrownGemini (GeminiAPIError_new "promptText is required"))
    else
      two_attempts (attempt_try env (build_payload p instruction language) 1)
                   (attempt_try env (build_payload p instruction language) 2).
Proof. rewrite <- attempt_loop_two. reflexivity. Qed.

(** An exception of [two_attempts] is the normalized exception of the
    second [try] block, the first having failed. *)
Lemma two_attempts_threw (first second : M GeminiResult) (e : thrown) :
  snd (two_attempts first second) = Threw e ->
  exists e1 e2,
    snd first = Threw e1 /\ snd second = Threw e2
    /\ e = ThrownGemini (normalize e2).
Proof.
  destruct first as [t1 [r1 | e1]]; [discriminate|].
  destruct second as [t2 [r2 | e2]]; [discriminate|].
  cbn. intros [= <-]. now exists e1, e2.
Qed.

Lemma read_response_message (resp : HttpResponse) (g : GeminiAPIError) :
  snd (read_response resp) = Threw (ThrownGemini g) ->
  str_truthy (ge_message g) = true.
Proof.
  unfold read_response.
  destruct (resp_ok resp); cbn [negb].
  - destruct (resp_json resp) as [e | result]; [discriminate|].
    destruct (truthy _); cbn [negb].
    + destruct (parseCandidateSources _); discriminate.
    + now intros [= <-].
  - now intros [= <-].
Qed.

Lemma attempt_try_message
    (env : Env) (payload : Payload) (attempt : Z) (g : GeminiAPIError) :
  snd (attempt_try env payload attempt) = Threw (ThrownGemini g) ->
  str_truthy (ge_message g) = true.
Proof.
  unfold attempt_try, fetch.
  destruct (hasAbortController env && _); [discriminate|].
  destruct (outcome (exchange env attempt)) as [e | resp]; [discriminate|].
  cbn [bind emit ret app].
  generalize (read_response_message resp g).
  destruct (read_response resp) as [t [r | e]]; cbn [snd]; auto.
Qed.

Lemma normalize_message (err : thrown) :
  (forall g, err = ThrownGemini g -> str_truthy (ge_message g) = true) ->
  str_truthy (ge_message (normalize err)) = true.
Proof.
  intros H. destruct err as [g | e]; cbn [normalize]; [now apply H|].
  destruct (name e =? "AbortError")%string; [reflexivity|].
  cbn [GeminiAPIError_new ge_message].
  destruct (str_truthy (message e)) eqn:E; [exact E | reflexivity].
Qed.

(** Whatever [callGemini] throws is a [GeminiAPIError] with a message. *)
Lemma callGemini_throws_classified
    (env : Env) (p instruction : string) (language : option string) (e : thrown) :
  snd (callGemini env p instruction language) = Threw e ->
  exists g, e = ThrownGemini g /\ str_truthy (ge_message g) = true.
Proof.
  rewrite callGemini_cases.
  destruct (negb (key_configured env)); [intros [= <-]; now eexists|].
  destruct (negb (str_truthy p) || _); [intros [= <-]; now eexists|].
  intros H. apply two_attempts_threw in H. destruct H as (e1 & e2 & _ & H2 & ->).
  eexists; split; [reflexivity|].
  apply normalize_message. intros g ->. exact (attempt_try_message _ _ _ _ H2).
Qed.

(** C4. Once the first attempt has failed, a failure [err] of the final
    attempt is normalized before it is raised: a [GeminiAPIError] is raised
    unchanged; an abort raises "Request to Gemini timed out" without status;
    any other error raises its own message, or "Unknown error calling
    Gemini" when it has none. And whatever [callGemini] raises, in any run,
    is a [GeminiAPIError]. *)
Theorem C4_final_failure_is_normalized
    (env : Env) (p instruction : string) (language : option string)
    (e1 err : thrown) :
  key_configured env = true ->
  trim p <> "" ->
  snd (attempt_try env (build_payload p instruction language) 1) = Threw e1 ->
  snd (attempt_try env (build_payload p instruction language) 2) = Threw err ->
  (exists g, snd (callGemini env p instruction language) = Threw (ThrownGemini g)
     /\ match err with
        | ThrownGemini e => g = e
        | ThrownOther e =>
            if (name e =? "AbortError")%string then
              g = {| ge_message := "Request to Gemini timed out";
                     ge_status := None; ge_details := VUndefined |}
            else if (message e =? "")%string then
              g = {| ge_message := "Unknown error calling Gemini";
                     ge_status := None; ge_details := VUndefined |}
            else
              g = {| ge_message := message e;
                     ge_status := None; ge_details := VUndefined |}
        end)
  /\ (forall env' p' instruction' language' e,
         snd (callGemini env' p' instruction' language') = Threw e ->
         exists g, e = ThrownGemini g).
Proof.
  intros Hkey Hp H1 H2. split.
  - exists (normalize err). split.
    + rewrite (callGemini_started _ _ _ _ Hkey Hp), attempt_loop_two.
      destruct (attempt_try env _ 1) as [t1 [r1 | e1']]; [discriminate|].
      destruct (attempt_try env _ 2) as [t2 [r2 | e2']]; [discriminate|].
      cbn in H2 |- *. now injection H2 as ->.
    + destruct err as [g | e]; [reflexivity|]. cbn [normalize].
      destruct (name e =? "AbortError")%string; [reflexivity|].
      unfold str_truthy. destruct (message e =? "")%string; reflexivity.
  - intros env' p' i' l' e H.
    destruct (callGemini_throws_classified _ _ _ _ _ H) as (g & -> & _).
    now exists g.
Qed.

Lemma C4_final_failure_witness :
  exists g,
    snd (callGemini Samples.env_slow "Will it rain in Pune?" "" (Some "en-US"))
    = Threw (ThrownGemini g)
    /\ g = {| ge_message := "Request to Gemini timed out";
              ge_status := None; ge_details := VUndefined |}.
Proof.
  destruct (C4_final_failure_is_normalized
              Samples.env_slow "Will it rain in Pune?" "" (Some "en-US")
              (ThrownOther {| name := "TypeError"; message := "fetch failed" |})
              (ThrownOther AbortError))
    as [(g & Hrun & Hg) _].
  - reflexivity.
  - vm_compute. discriminate.
  - reflexivity.
  - reflexivity.
  - exists g. split; [exact Hrun | exact Hg].
Defined.

(** ** The status of a failed request *)

Lemma on_service_error_response (g : GeminiAPIError) :
  str_truthy (ge_message g) = true ->
  snd (on_service_error (ThrownGemini g))
  = Returned
      {| status := if includes (ge_message g) "Gemini API Error"
                   then 502%N else 500%N;
         body := ErrorWithDetails (ge_message g) (ge_details g) |}.
Proof.
  intros H. unfold on_service_error. cbn [message_of details_of].
  rewrite H. reflexivity.
Qed.

(** C9. When [callGemini] fails with [e], the handler answers with the body
    [{error: e.message, details: e.details}], and with status 502 exactly
    when the message contains "Gemini API Error", status 500 otherwise. *)
Theorem C9_failure_status
    (env : Env) (fields : list (string * value)) (p : string) (e : thrown) :
  assoc "promptText" fields = Some (VStr p) ->
  p <> "" ->
  snd (callGemini env p
         (or_empty (string_field (VObj fields) "systemInstruction"))
         (string_field (VObj fields) "language"))
  = Threw e ->
  exists st : N,
    snd (handleGeminiRequest env (VObj fields))
    = Returned {| status := st;
                  body := ErrorWithDetails (message_of e) (details_of e) |}
    /\ (st = 502%N <-> includes (message_of e) "Gemini API Error" = true)
    /\ (st = 500%N <-> includes (message_of e) "Gemini API Error" = false).
Proof.
  intros Hfield Hp Hrun.
  destruct (callGemini_throws_classified _ _ _ _ _ Hrun) as (g & -> & Hmsg).
  rewrite (handler_on_object _ _ _ Hfield Hp).
  destruct (callGemini env p _ _) as [t o]. cbn [snd] in Hrun. subst o.
  cbn [answer_of message_of details_of].
  generalize (on_service_error_response g Hmsg).
  destruct (on_service_error _) as [t' r']. cbn [snd]. intros ->.
  eexists. split; [reflexivity|].
  destruct (includes (ge_message g) "Gemini API Error");
    split; split; (reflexivity || discriminate).
Qed.

Lemma C9_failure_status_witness :
  exists st : N,
    snd (handleGeminiRequest Samples.env_slow (Samples.request "Will it rain in Pune?"))
    = Returned {| status := st;
                  body := ErrorWithDetails "Request to Gemini timed out" VUndefined |}
    /\ (st = 502%N <-> includes "Request to Gemini timed out" "Gemini API Error" = true)
    /\ (st = 500%N <-> includes "Request to Gemini timed out" "Gemini API Error" = false).
Proof.
  apply (C9_failure_status
           Samples.env_slow [("promptText", VStr "Will it rain in Pune?")]
           "Will it rain in Pune?"
           (ThrownGemini (GeminiAPIError_new "Request to Gemini timed out"))).
  - reflexivity.
  - discriminate.
  - reflexivity.
Defined.

(** ** Citation sources *)

Lemma web_member (a : value) (key : string) (default : value) :
  or_else (opt_member (opt_member a "web") key) default
  = match web_field a key with
    | Some v => if truthy v then v else default
    | None => default
    end.
Proof.
  unfold or_else, web_field, opt_member.
  destruct a as [| |b|x|s|items|fields]; try reflexivity.
  cbn [member]. destruct (assoc "web" fields) as [web|]; [|reflexivity].
  destruct web as [| |b|x|s|items|wfields]; try reflexivity.
  cbn [member]. destruct (assoc key wfields); reflexivity.
Qed.

Lemma attribution_source_defaults (a : value) :
  attribution_source a = source_or_defaults a.
Proof.
  unfold attribution_source, source_or_defaults. now rewrite !web_member.
Qed.

Lemma parseCandidateSources_returns (candidate : value) (srcs : list GeminiSource) :
  parseCandidateSources candidate = inr srcs ->
  srcs = map source_or_defaults (attributions_of candidate).
Proof.
  unfold parseCandidateSources, attributions_of.
  assert (G : (if truthy candidate && is_object_tag (typeof candidate)
               then opt_member candidate "groundingMetadata" else VUndefined)
              = opt_member candidate "groundingMetadata").
  { destruct candidate as [| |b|x|s|items|fields]; try reflexivity;
      cbn [typeof is_object_tag]; now rewrite andb_false_r. }
  rewrite G. clear G.
  destruct (opt_member candidate "groundingMetadata")
    as [| |b|x|s|items|metadata]; cbn [truthy typeof is_object_tag negb orb];
    rewrite ?orb_true_r; try (now intros [= <-]).
  unfold opt_member, member.
  destruct (assoc "groundingAttributions" metadata) as [attrs|];
    [|now intros [= <-]].
  destruct attrs as [| |b|x|s|arr|o]; cbn [truthy negb];
    try (now intros [= <-]); try discriminate.
  - destruct b; [discriminate | now intros [= <-]].
  - destruct (negb _); [now intros [= <-] | discriminate].
  - destruct (str_truthy s); [discriminate | now intros [= <-]].
  - intros [= <-]. apply map_ext, attribution_source_defaults.
Qed.

Lemma source_or_defaults_claimed (a : value) :
  keeps_its_fields a -> source_or_defaults a = claimed_source a.
Proof.
  intros [Hu Ht]. unfold source_or_defaults, claimed_source. f_equal.
  - destruct (web_field a "uri") as [u|]; [|reflexivity].
    destruct (Hu u eq_refl) as [-> | ->]; reflexivity.
  - destruct (web_field a "title") as [t|]; [|reflexivity].
    now rewrite (Ht t eq_refl).
Qed.

(** C6, as the code has it. The sources of a successful parse are the
    grounding attributions of the first candidate, mapped one by one to
    their web URI and title, with the empty string for a URI and "External
    Source" for a title that is missing or falsy (the empty string, for one);
    without grounding metadata or attribution list there is no source. On
    attributions whose fields are not falsy this is the mapping the
    specification words. *)
Theorem C6_sources_of_first_candidate (resp : HttpResponse) (r : GeminiResult) :
  snd (read_response resp) = Returned r ->
  exists result,
    resp_json resp = inr result
    /\ sources r = map source_or_defaults (attributions_of (first_candidate result))
    /\ (opt_member (first_candidate result) "groundingMetadata" = VUndefined
        \/ opt_member (opt_member (first_candidate result) "groundingMetadata")
             "groundingAttributions" = VUndefined ->
        sources r = [])
    /\ ((forall a, In a (attributions_of (first_candidate result)) ->
                   keeps_its_fields a) ->
        sources r = map claimed_source (attributions_of (first_candidate result))).
Proof.
  unfold read_response.
  destruct (resp_ok resp); cbn [negb]; [|discriminate].
  destruct (resp_json resp) as [e | result]; [discriminate|].
  destruct (truthy _); cbn [negb]; [|discriminate].
  destruct (parseCandidateSources (first_candidate result)) as [e | srcs] eqn:P;
    [discriminate|].
  intros [= <-]. cbn [sources].
  apply parseCandidateSources_returns in P.
  exists result. split; [reflexivity|]. split; [exact P|]. split.
  - intros H. rewrite P. unfold attributions_of.
    destruct H as [-> | H]; [reflexivity|].
    destruct (opt_member (first_candidate result) "groundingMetadata")
      as [| |b|x|s|items|metadata]; try reflexivity.
    unfold opt_member, member in H.
    destruct (assoc "groundingAttributions" metadata) as [attrs|]; [|reflexivity].
    now rewrite H.
  - intros H. rewrite P. apply map_ext_in. intros a Ha.
    apply source_or_defaults_claimed, H, Ha.
Qed.

Lemma C6_sources_witness :
  exists result,
    resp_json Samples.two_attributions = inr result
    /\ map source_or_defaults (attributions_of (first_candidate result))
       = [ {| uri := VStr "https://a.example"; title := VStr "A" |};
           {| uri := VStr ""; title := VStr "External Source" |} ].
Proof.
  destruct (C6_sources_of_first_candidate
              Samples.two_attributions
              {| text := VStr "Sunny";
                 sources := [ {| uri := VStr "https://a.example"; title := VStr "A" |};
                              {| uri := VStr ""; title := VStr "External Source" |} ] |})
    as (result & Hjson & Hsrc & _).
  - reflexivity.
  - exists result. split; [exact Hjson | symmetry; exact Hsrc].
Defined.

(** C6, as stated, fails: an attribution with the title [""] has a title,
    and the source built from it carries "External Source", not that title. *)
Lemma C6_empty_title_is_replaced :
  web_field (Samples.web "https://a.example" "") "title" = Some (VStr "")
  /\ snd (read_response Samples.untitled_attribution)
     = Returned
         {| text := VStr "Sunny";
            sources := [ {| uri := VStr "https://a.example";
                            title := VStr "External Source" |} ] |}
  /\ map claimed_source
       (attributions_of (Samples.grounded_candidate [Samples.web "https://a.example" ""]))
     = [ {| uri := VStr "https://a.example"; title := VStr "" |} ]
  /\ parseCandidateSources
       (Samples.grounded_candidate [Samples.web "https://a.example" ""])
     <> inr (map claimed_source
               (attributions_of
                  (Samples.grounded_candidate [Samples.web "https://a.example" ""]))).
Proof.
  repeat split; try reflexivity. vm_compute. discriminate.
Qed.

(** * Further properties of the service, the handler and the route *)

(** ** The traces of a run *)

Lemma attempt_try_shape (env : Env) (payload : Payload) (attempt : Z) :
  (exists resp r,
      answers env attempt resp
      /\ snd (read_response resp) = Returned r
      /\ attempt_try env payload attempt
         = ([Fetch (GEMINI_API_URL env) payload; ClearTimeout], Returned r))
  \/ (exists t e,
         attempt_try env payload attempt = (t, Threw e)
         /\ In t (failed_attempts (Fetch (GEMINI_API_URL env) payload))).
Proof.
  destruct (hasAbortController env
            && (baseTimeoutMs * attempt <=? latency (exchange env attempt))) eqn:Ht.
  - right. exists [Fetch (GEMINI_API_URL env) payload; Abort], (ThrownOther AbortError).
    split; [|now left].
    unfold attempt_try, fetch. now rewrite Ht.
  - destruct (outcome (exchange env attempt)) as [e | resp] eqn:Ho.
    + right. exists [Fetch (GEMINI_API_URL env) payload], (ThrownOther e).
      split; [|right; now left].
      unfold attempt_try, fetch. now rewrite Ht, Ho.
    + assert (A : answers env attempt resp) by (split; assumption).
      rewrite (attempt_try_answers _ payload _ _ A).
      destruct (snd (read_response resp)) as [r | e] eqn:Hr.
      * left. now exists resp, r.
      * right. eexists _, e. split; [reflexivity|]. right; right; now left.
Qed.

Lemma callGemini_trace_possible
    (env : Env) (p instruction : string) (language : option string) :
  In (fst (callGemini env p instruction language))
     (possible_traces
        (Fetch (GEMINI_API_URL env) (build_payload p instruction language))).
Proof.
  rewrite callGemini_cases.
  destruct (negb (key_configured env)); [now left|].
  destruct (negb (str_truthy p) || _); [now left|].
  set (payload := build_payload p instruction language).
  destruct (attempt_try_shape env payload 1) as [(resp1 & r1 & _ & _ & ->) | (t1 & e1 & -> & H1)].
  { right; now left. }
  right; right. unfold possible_traces. apply in_flat_map.
  exists t1. split; [exact H1|].
  destruct (attempt_try_shape env payload 2) as [(resp2 & r2 & _ & _ & ->) | (t2 & e2 & -> & H2)].
  - left. reflexivity.
  - right. apply in_map_iff. exists t2. split; [reflexivity | exact H2].
Qed.

(** A property of all possible traces is a property of every run. *)
Lemma every_run
    (P : event -> trace -> Prop)
    (env : Env) (p instruction : string) (language : option string) :
  (forall url body t,
      In t (possible_traces (Fetch url body)) -> P (Fetch url body) t) ->
  P (Fetch (GEMINI_API_URL env) (build_payload p instruction language))
    (fst (callGemini env p instruction language)).
Proof. intros H. apply H, callGemini_trace_possible. Qed.

Ltac each_trace :=
  let url := fresh "url" in
  let body := fresh "body" in
  let t := fresh "t" in
  let H := fresh "H" in
  intros url body t H; cbn in H;
  repeat (destruct H as [<- | H]; [cbn; auto|]); try contradiction.

(** ** Timeouts *)







(** ** Bounds of a run *)

(** X1. In every run [callGemini] makes at most two outbound calls, arms
    one timer per call, and waits 200 ms once between two calls and never
    otherwise; with the credential and a prompt that is not blank it makes
    at least one call. *)
Theorem callGemini_calls_are_bounded
    (env : Env) (p instruction : string) (language : option string) :
  (fetches (fst (callGemini env p instruction language)) <= 2)%nat
  /\ length (timers (fst (callGemini env p instruction language)))
     = fetches (fst (callGemini env p instruction language))
  /\ sleeps (fst (callGemini env p instruction language))
     = repeat 200 (fetches (fst (callGemini env p instruction language)) - 1)
  /\ (key_configured env = true -> trim p <> "" ->
      (1 <= fetches (fst (callGemini env p instruction language)))%nat).
Proof.
  split; [|split; [|split]].
  - apply (every_run (fun _ t => (fetches t <= 2)%nat)). each_trace.
  - apply (every_run (fun _ t => length (timers t) = fetches t)). each_trace.
  - apply (every_run (fun _ t => sleeps t = repeat 200 (fetches t - 1))). each_trace.
  - intros Hkey Hp.
    rewrite (callGemini_started _ _ _ _ Hkey Hp), attempt_loop_two.
    destruct (attempt_try_one_call env (build_payload p instruction language) 1)
      as (F1 & _).
    destruct (attempt_try env _ 1) as [t1 [r1 | e1]]; cbn [fst] in F1.
    + cbn [two_attempts fst].
      change (SetTimeout 8000 :: t1) with ([SetTimeout 8000] ++ t1)%list.
      rewrite fetches_app, F1. cbn. lia.
    + destruct (attempt_try env _ 2) as [t2 [r2 | e2]]; cbn [two_attempts fst];
        change (SetTimeout 8000 :: t1) with ([SetTimeout 8000] ++ t1)%list;
        rewrite !fetches_app, F1; cbn; lia.
Qed.

(** X2. Every run keeps the discipline of the abort timer: a timer is
    armed only when none stands, every outbound call is made under a timer,
    the timer is cleared before the delay, and no timer is left standing
    when [callGemini] returns or throws. *)
Theorem callGemini_clears_its_timers
    (env : Env) (p instruction : string) (language : option string) :
  well_timed false (fst (callGemini env p instruction language)) = true.
Proof.
  apply (every_run (fun _ t => well_timed false t = true)). each_trace.
Qed.

(** X3. Every outbound call of a run goes to the same URL with the same
    body: the prompt as given (not trimmed) as the only content part, the
    composed system instruction under the role "system", and the search
    tool. A retry repeats the first request. *)
Theorem callGemini_repeats_one_request
    (env : Env) (p instruction : string) (language : option string) :
  Forall
    (fun ev =>
       match ev with
       | Fetch url body =>
           url = GEMINI_API_URL env
           /\ contents body = [ {| parts := [ {| part_text := p |} ] |} ]
           /\ systemInstruction body
              = {| role := "system";
                   si_parts :=
                     [ {| part_text :=
                            buildFinalSystemInstruction (Some instruction) language |} ] |}
           /\ tools body = [ googleSearch ]
       | _ => True
       end)
    (fst (callGemini env p instruction language)).
Proof.
  assert (H : Forall
                (fun ev =>
                   match ev with
                   | Fetch _ _ =>
                       ev = Fetch (GEMINI_API_URL env)
                                  (build_payload p instruction language)
                   | _ => True
                   end)
                (fst (callGemini env p instruction language))).
  { apply (every_run
             (fun call t =>
                Forall (fun ev => match ev with
                                  | Fetch _ _ => ev = call
                                  | _ => True
                                  end) t)).
    intros url body t Ht. cbn in Ht.
    repeat (destruct Ht as [<- | Ht]; [repeat constructor|]). contradiction. }
  eapply Forall_impl; [|exact H].
  intros [ms| | |url body|ms|label what]; try easy.
  intros [= -> ->]. repeat split.
Qed.

(** ** Successful runs *)

Lemma read_response_has_text
    (resp : HttpResponse) (result : value) (srcs : list GeminiSource) :
  has_text resp result ->
  parseCandidateSources (first_candidate result) = inr srcs ->
  read_response resp
  = ([], Returned {| text := candidate_text (first_candidate result);
                     sources := srcs |}).
Proof.
  intros (Hok & Hjson & Htext) Hsrc. unfold read_response.
  rewrite Hok, Hjson. cbn [negb]. rewrite Htext, Hsrc. reflexivity.
Qed.

(** X4. When the first response arrives in time with a text and readable
    sources, [callGemini] returns them after that single call: one timer of
    8000 ms, armed and cleared, no delay, no second call, whatever a second
    call would have met. *)
Theorem first_success_ends_the_run
    (env : Env) (p instruction : string) (language : option string)
    (resp : HttpResponse) (result : value) (srcs : list GeminiSource) :
  key_configured env = true ->
  trim p <> "" ->
  answers env 1 resp ->
  has_text resp result ->
  parseCandidateSources (first_candidate result) = inr srcs ->
  callGemini env p instruction language
  = ([SetTimeout 8000;
      Fetch (GEMINI_API_URL env) (build_payload p instruction language);
      ClearTimeout],
     Returned {| text := candidate_text (first_candidate result);
                 sources := srcs |}).
Proof.
  intros Hkey Hp A T S.
  rewrite (callGemini_started _ _ _ _ Hkey Hp), attempt_loop_two.
  rewrite (attempt_try_answers _ _ _ _ A), (read_response_has_text _ _ _ T S).
  reflexivity.
Qed.

Lemma first_success_witness :
  callGemini (Samples.answering (Some "test-key") Samples.two_attributions)
    "Will it rain in Pune?" "" None
  = ([SetTimeout 8000;
      Fetch (GEMINI_API_URL (Samples.answering (Some "test-key") Samples.two_attributions))
            (build_payload "Will it rain in Pune?" "" None);
      ClearTimeout],
     Returned
       {| text := VStr "Sunny";
          sources := [ {| uri := VStr "https://a.example"; title := VStr "A" |};
                       {| uri := VStr ""; title := VStr "External Source" |} ] |}).
Proof.
  apply (first_success_ends_the_run
           (Samples.answering (Some "test-key") Samples.two_attributions)
           "Will it rain in Pune?" "" None Samples.two_attributions
           (VObj [("candidates",
                   VArr [Samples.grounded_candidate
                           [Samples.web "https://a.example" "A";
                            VObj [("web", VObj [])]]])])).
  - reflexivity.
  - vm_compute. discriminate.
  - split; reflexivity.
  - repeat split.
  - reflexivity.
Defined.

(** X5. A failure of the first attempt, of whatever kind, is forgotten when
    the second response arrives in time with a text: the result of the second
    attempt is returned, after two calls, timers of 8000 and 16000 ms, and
    one delay of 200 ms. *)
Theorem second_attempt_recovers
    (env : Env) (p instruction : string) (language : option string)
    (e1 : thrown) (resp : HttpResponse) (result : value)
    (srcs : list GeminiSource) :
  key_configured env = true ->
  trim p <> "" ->
  snd (attempt_try env (build_payload p instruction language) 1) = Threw e1 ->
  answers env 2 resp ->
  has_text resp result ->
  parseCandidateSources (first_candidate result) = inr srcs ->
  snd (callGemini env p instruction language)
  = Returned {| text := candidate_text (first_candidate result); sources := srcs |}
  /\ fetches (fst (callGemini env p instruction language)) = 2%nat
  /\ sleeps (fst (callGemini env p instruction language)) = [200]
  /\ timers (fst (callGemini env p instruction language)) = [8000; 16000].
Proof.
  intros Hkey Hp H1 A T S.
  rewrite (callGemini_started _ _ _ _ Hkey Hp), attempt_loop_two.
  destruct (attempt_try_one_call env (build_payload p instruction language) 1)
    as (F1 & S1 & T1).
  destruct (attempt_try env _ 1) as [t1 [r1 | e1']]; [discriminate|].
  cbn [fst] in F1, S1, T1.
  rewrite (attempt_try_answers _ _ _ _ A), (read_response_has_text _ _ _ T S).
  split; [reflexivity|].
  apply (two_attempts_retry t1 e1'); try assumption; reflexivity.
Qed.

Lemma second_attempt_witness :
  snd (callGemini
         {| GEMINI_API_KEY := Some "test-key";
            hasAbortController := true;
            exchange := fun attempt =>
              if attempt =? 1
              then {| latency := 9000; outcome := Responds Samples.two_attributions |}
              else {| latency := 700; outcome := Responds Samples.untitled_attribution |} |}
         "Will it rain in Pune?" "" None)
  = Returned
      {| text := VStr "Sunny";
         sources := [ {| uri := VStr "https://a.example";
                         title := VStr "External Source" |} ] |}.
Proof.
  apply (second_attempt_recovers _ "Will it rain in Pune?" "" None
           (ThrownOther AbortError) Samples.untitled_attribution
           (VObj [("candidates",
                   VArr [Samples.grounded_candidate
                           [Samples.web "https://a.example" ""]])])).
  - reflexivity.
  - vm_compute. discriminate.
  - reflexivity.
  - split; reflexivity.
  - repeat split.
  - reflexivity.
Defined.

Lemma or_else_truthy (a b : value) : truthy b = true -> truthy (or_else a b) = true.
Proof. intros H. unfold or_else. destruct (truthy a) eqn:E; assumption. Qed.

Lemma parseCandidateSources_titles (candidate : value) (srcs : list GeminiSource) :
  parseCandidateSources candidate = inr srcs ->
  Forall (fun s => truthy (title s) = true) srcs.
Proof.
  unfold parseCandidateSources.
  destruct (negb _ || _); [intros [= <-]; constructor|].
  destruct (negb _); [intros [= <-]; constructor|].
  destruct (opt_member _ "groundingAttributions"); try discriminate.
  intros [= <-]. apply Forall_map, Forall_forall. intros a _.
  now apply or_else_truthy.
Qed.

Lemma read_response_returned (resp : HttpResponse) (r : GeminiResult) :
  snd (read_response resp) = Returned r ->
  truthy (text r) = true /\ Forall (fun s => truthy (title s) = true) (sources r).
Proof.
  unfold read_response.
  destruct (resp_ok resp); cbn [negb]; [|discriminate].
  destruct (resp_json resp) as [e | result]; [discriminate|].
  destruct (truthy (candidate_text _)) eqn:Ht; cbn [negb]; [|discriminate].
  destruct (parseCandidateSources _) as [e | srcs] eqn:P; [discriminate|].
  intros [= <-]. split; [exact Ht | exact (parseCandidateSources_titles _ _ P)].
Qed.

(** A returned result is what [read_response] made of some response. *)
Lemma callGemini_returned
    (env : Env) (p instruction : string) (language : option string)
    (r : GeminiResult) :
  snd (callGemini env p instruction language) = Returned r ->
  exists resp, snd (read_response resp) = Returned r.
Proof.
  rewrite callGemini_cases.
  destruct (negb (key_configured env)); [discriminate|].
  destruct (negb (str_truthy p) || _); [discriminate|].
  set (payload := build_payload p instruction language).
  destruct (attempt_try_shape env payload 1)
    as [(resp1 & r1 & _ & R1 & ->) | (t1 & e1 & -> & _)].
  - cbn. intros [= <-]. now exists resp1.
  - destruct (attempt_try_shape env payload 2)
      as [(resp2 & r2 & _ & R2 & ->) | (t2 & e2 & -> & _)].
    + cbn. intros [= <-]. now exists resp2.
    + discriminate.
Qed.

(** X6. A result that [callGemini] returns never has an empty (or otherwise
    falsy) text, and every source in it has a non-empty title. *)
Theorem returned_result_has_text_and_titles
    (env : Env) (p instruction : string) (language : option string)
    (r : GeminiResult) :
  snd (callGemini env p instruction language) = Returned r ->
  truthy (text r) = true
  /\ Forall (fun s => truthy (title s) = true) (sources r).
Proof.
  intros H. destruct (callGemini_returned _ _ _ _ _ H) as (resp & Hresp).
  unfold read_response in Hresp.
  destruct (resp_ok resp); cbn [negb] in Hresp; [|discriminate].
  destruct (resp_json resp) as [e | result]; [discriminate|].
  destruct (truthy (candidate_text _)) eqn:Ht; cbn [negb] in Hresp; [|discriminate].
  destruct (parseCandidateSources _) as [e | srcs] eqn:P; [discriminate|].
  injection Hresp as <-.
  split; [exact Ht | exact (parseCandidateSources_titles _ _ P)].
Qed.

Lemma returned_result_witness :
  truthy (VStr "Sunny") = true
  /\ Forall (fun s => truthy (title s) = true)
       [ {| uri := VStr "https://a.example"; title := VStr "External Source" |} ].
Proof.
  apply (returned_result_has_text_and_titles
           (Samples.answering (Some "test-key") Samples.untitled_attribution)
           "Will it rain in Pune?" "" None
           {| text := VStr "Sunny";
              sources := [ {| uri := VStr "https://a.example";
                              title := VStr "External Source" |} ] |}).
  reflexivity.
Defined.

(** ** Failures other than a status *)

(** X7. When the first attempt has failed and the call of the second is
    still under way after 16000 ms (with [AbortController] at hand), the
    request is answered with status 500 and the message "Request to Gemini
    timed out", without details, after two calls and one delay. *)
Theorem timeout_is_answered_500
    (env : Env) (fields : list (string * value)) (p : string) (e1 : thrown) :
  key_configured env = true ->
  assoc "promptText" fields = Some (VStr p) ->
  trim p <> "" ->
  snd (attempt_try env
         (build_payload p
            (or_empty (string_field (VObj fields) "systemInstruction"))
            (string_field (VObj fields) "language")) 1) = Threw e1 ->
  hasAbortController env = true ->
  16000 <= latency (exchange env 2) ->
  snd (handleGeminiRequest env (VObj fields))
  = Returned {| status := 500;
                body := ErrorWithDetails "Request to Gemini timed out" VUndefined |}
  /\ fetches (fst (handleGeminiRequest env (VObj fields))) = 2%nat
  /\ sleeps (fst (handleGeminiRequest env (VObj fields))) = [200].
Proof.
  intros Hkey Hfield Hp H1 Hc Hlate.
  assert (Hne : p <> "") by (intros ->; now apply Hp).
  rewrite (handler_on_object _ _ _ Hfield Hne).
  destruct (answer_of_effects
              (callGemini env p
                 (or_empty (string_field (VObj fields) "systemInstruction"))
                 (string_field (VObj fields) "language"))) as [-> ->].
  rewrite (callGemini_started _ _ _ _ Hkey Hp), attempt_loop_two.
  destruct (attempt_try_one_call env
              (build_payload p
                 (or_empty (string_field (VObj fields) "systemInstruction"))
                 (string_field (VObj fields) "language")) 1) as (F1 & S1 & T1).
  destruct (attempt_try env _ 1) as [t1 [r1 | e1']]; [discriminate|].
  cbn [fst] in F1, S1, T1.
  rewrite (attempt_try_aborted env _ 2 Hc Hlate).
  split; [reflexivity|].
  destruct (two_attempts_retry t1 e1'
              ([Fetch (GEMINI_API_URL env)
                  (build_payload p
                     (or_empty (string_field (VObj fields) "systemInstruction"))
                     (string_field (VObj fields) "language")); Abort],
               Threw (ThrownOther AbortError)))
    as (F & S & _); try assumption; try reflexivity.
  split; assumption.
Qed.

Lemma timeout_witness :
  snd (handleGeminiRequest Samples.env_slow (Samples.request "Will it rain in Pune?"))
  = Returned {| status := 500;
                body := ErrorWithDetails "Request to Gemini timed out" VUndefined |}.
Proof.
  apply (timeout_is_answered_500
           Samples.env_slow [("promptText", VStr "Will it rain in Pune?")]
           "Will it rain in Pune?"
           (ThrownOther {| name := "TypeError"; message := "fetch failed" |})).
  - reflexivity.
  - reflexivity.
  - vm_compute. discriminate.
  - reflexivity.
  - reflexivity.
  - vm_compute. discriminate.
Defined.

(** X8. A success response that has a text but whose
    [groundingAttributions] is something other than a list (and not falsy) is
    no success: the attempt fails with the exception of the failed [.map]
    call, and the text is not returned. *)
Theorem attributions_that_are_no_list_fail_the_attempt
    (resp : HttpResponse) (result attributions : value) :
  has_text resp result ->
  opt_member (opt_member (first_candidate result) "groundingMetadata")
    "groundingAttributions" = attributions ->
  truthy attributions = true ->
  (forall arr, attributions <> VArr arr) ->
  read_response resp = ([], Threw (ThrownOther map_is_not_a_function)).
Proof.
  intros (Hok & Hjson & Htext) Hattr Htruthy Hno.
  unfold read_response. rewrite Hok, Hjson. cbn [negb]. rewrite Htext. cbn [negb].
  assert (P : parseCandidateSources (first_candidate result)
              = inl map_is_not_a_function).
  { unfold parseCandidateSources.
    set (candidate := first_candidate result) in *.
    assert (G : (if truthy candidate && is_object_tag (typeof candidate)
                 then opt_member candidate "groundingMetadata" else VUndefined)
                = opt_member candidate "groundingMetadata").
    { destruct candidate as [| |b|x|s|items|cf]; try reflexivity;
        cbn [typeof is_object_tag]; now rewrite andb_false_r. }
    rewrite G. clear G.
    destruct (opt_member candidate "groundingMetadata")
      as [| |b|x|s|items|metadata];
      try (cbn in Hattr; subst attributions; discriminate Htruthy).
    cbn [truthy typeof is_object_tag negb orb].
    rewrite Hattr, Htruthy. cbn [negb].
    destruct attributions; try reflexivity. now contradiction (Hno items). }
  now rewrite P.
Qed.

Lemma attributions_that_are_no_list_witness :
  read_response
    {| resp_status := 200;
       resp_text :=
         "{" ++ Samples.quoted "candidates" ++ ":[{" ++ Samples.quoted "content"
         ++ ":{" ++ Samples.quoted "parts" ++ ":[{" ++ Samples.quoted "text" ++ ":"
         ++ Samples.quoted "Sunny" ++ "}]}," ++ Samples.quoted "groundingMetadata"
         ++ ":{" ++ Samples.quoted "groundingAttributions" ++ ":"
         ++ Samples.quoted "none" ++ "}}]}";
       resp_json :=
         inr (VObj [("candidates",
                     VArr [VObj [("content",
                                  VObj [("parts", VArr [VObj [("text", VStr "Sunny")]])]);
                                 ("groundingMetadata",
                                  VObj [("groundingAttributions", VStr "none")])]])]) |}
  = ([], Threw (ThrownOther map_is_not_a_function)).
Proof.
  eapply attributions_that_are_no_list_fail_the_attempt.
  - repeat split.
  - reflexivity.
  - reflexivity.
  - intros arr. discriminate.
Defined.

(** ** What the handler and the route always do *)

Lemma callGemini_logs_nothing
    (env : Env) (p instruction : string) (language : option string) :
  existsb is_controller_error (fst (callGemini env p instruction language)) = false.
Proof.
  apply (every_run (fun _ t => existsb is_controller_error t = false)). each_trace.
Qed.

Lemma answer_of_threw (t : trace) (g : GeminiAPIError) :
  str_truthy (ge_message g) = true ->
  answer_of (t, Threw (ThrownGemini g))
  = ((t ++ [ConsoleError "Gemini service error:" (inl (ge_message g))])%list,
     Returned
       {| status := if includes (ge_message g) "Gemini API Error"
                    then 502%N else 500%N;
          body := ErrorWithDetails (ge_message g) (ge_details g) |}).
Proof.
  intros H. unfold answer_of, on_service_error. cbn [message_of details_of].
  rewrite H. reflexivity.
Qed.

(** X9. The handler answers every body: it never throws, its status is
    200, 400, 500 or 502, it is 400 exactly when the body has no non-empty
    string [promptText], it is 200 exactly when the response carries a result
    (whose text is then not empty), and the log line of its outer [catch],
    with the "Internal server error" answer, never occurs. *)
Theorem handler_always_answers (env : Env) (body : value) :
  exists resp,
    snd (handleGeminiRequest env body) = Returned resp
    /\ In (status resp) [200; 400; 500; 502]%N
    /\ (status resp = 400%N
        <-> or_empty (string_field (payload_of body) "promptText") = "")
    /\ (status resp = 200%N
        <-> exists r, Controller.body resp = Result r /\ truthy (text r) = true)
    /\ Controller.body resp <> ErrorOnly "Internal server error"
    /\ existsb is_controller_error (fst (handleGeminiRequest env body)) = false.
Proof.
  destruct (String.eqb_spec
              (or_empty (string_field (payload_of body) "promptText")) "")
    as [E | NE].
  - rewrite (handler_without_prompt env body E).
    eexists. split; [reflexivity|]. cbn.
    repeat split; auto; try discriminate.
    intros (r & H & _). discriminate H.
  - rewrite (handler_with_prompt env body NE).
    generalize (callGemini_logs_nothing env
                  (or_empty (string_field (payload_of body) "promptText"))
                  (or_empty (string_field (payload_of body) "systemInstruction"))
                  (string_field (payload_of body) "language")).
    assert (Hreturned : forall r,
               snd (callGemini env
                      (or_empty (string_field (payload_of body) "promptText"))
                      (or_empty (string_field (payload_of body) "systemInstruction"))
                      (string_field (payload_of body) "language")) = Returned r ->
               truthy (text r) = true).
    { intros r H. destruct (callGemini_returned _ _ _ _ _ H) as (resp & Hresp).
      exact (proj1 (read_response_returned _ _ Hresp)). }
    revert Hreturned.
    generalize (callGemini_throws_classified env
                  (or_empty (string_field (payload_of body) "promptText"))
                  (or_empty (string_field (payload_of body) "systemInstruction"))
                  (string_field (payload_of body) "language")).
    destruct (callGemini env _ _ _) as [t [r | e]]; cbn [fst snd];
      intros Hthrown Hret Hlog.
    + pose proof (Hret r eq_refl) as Htext.
      eexists. split; [reflexivity|]. cbn.
      repeat split; auto; try discriminate; try contradiction.
      now exists r.
    + destruct (Hthrown e eq_refl) as (g & -> & Hmsg).
      rewrite (answer_of_threw t g Hmsg).
      eexists. split; [reflexivity|]. cbn [fst status Controller.body].
      rewrite existsb_app, Hlog.
      destruct (includes (ge_message g) "Gemini API Error"); cbn;
        repeat split; auto; try discriminate; try contradiction;
        try (intros (r & H & _); discriminate H).
Qed.

Lemma handler_returns (env : Env) (body : value) :
  exists t resp,
    handleGeminiRequest env body = (t, Returned resp)
    /\ In (status resp) [200; 400; 500; 502]%N
    /\ (Controller.body resp = ErrorOnly "Missing promptText"
        \/ (exists r, Controller.body resp = Result r)
        \/ (exists m d, Controller.body resp = ErrorWithDetails m d)).
Proof.
  destruct (String.eqb_spec
              (or_empty (string_field (payload_of body) "promptText")) "")
    as [E | NE].
  - rewrite (handler_without_prompt env body E).
    eexists _, _. split; [reflexivity|]. split; [cbn; tauto | now left].
  - rewrite (handler_with_prompt env body NE).
    generalize (callGemini_throws_classified env
                  (or_empty (string_field (payload_of body) "promptText"))
                  (or_empty (string_field (payload_of body) "systemInstruction"))
                  (string_field (payload_of body) "language")).
    destruct (callGemini env _ _ _) as [t [r | e]]; cbn [snd]; intros Hthrown.
    + eexists _, _. split; [reflexivity|].
      split; [cbn; tauto | right; left; now exists r].
    + destruct (Hthrown e eq_refl) as (g & -> & Hmsg).
      rewrite (answer_of_threw t g Hmsg).
      eexists _, _. split; [reflexivity|]. split.
      * cbn. destruct (includes (ge_message g) "Gemini API Error"); tauto.
      * right; right. now eexists _, _.
Qed.

(** X10. The route hands every request body that is JSON to the handler
    and answers as the handler does; its own answer, status 400 with
    [{error: "Invalid request"}], is given exactly when the body is not JSON,
    then with one log line and no outbound call. The route never throws. *)
Theorem route_answers_every_request (env : Env) (parsed : JS.Error + value) :
  (forall body, parsed = inr body ->
                Route.POST env parsed = handleGeminiRequest env body)
  /\ (forall e, parsed = inl e ->
                Route.POST env parsed
                = ([ConsoleError "Route error:" (inr (ThrownOther e))],
                   Returned {| status := 400; body := ErrorOnly "Invalid request" |}))
  /\ (exists resp,
         snd (Route.POST env parsed) = Returned resp
         /\ In (status resp) [200; 400; 500; 502]%N
         /\ (Controller.body resp = ErrorOnly "Invalid request"
             <-> exists e, parsed = inl e)).
Proof.
  assert (Hbody : forall body, Route.POST env (inr body) = handleGeminiRequest env body).
  { intros body. unfold Route.POST.
    destruct (handler_returns env body) as (t & resp & -> & _). reflexivity. }
  split; [now intros body ->|]. split; [now intros e ->|].
  destruct parsed as [e | body].
  - eexists. split; [reflexivity|]. cbn. split; [auto|].
    split; [now exists e | reflexivity].
  - rewrite Hbody.
    destruct (handler_returns env body) as (t & resp & Hrun & Hst & Hforms).
    exists resp. rewrite Hrun. split; [reflexivity|]. split; [exact Hst|].
    split.
    + intros H. rewrite H in Hforms.
      destruct Hforms as [F | [(r & F) | (m & d & F)]]; discriminate F.
    + intros (e & He). discriminate He.
Qed.

(** ** Details of an upstream error *)

(** X11. The details of a non-success response are the [error] member of
    its JSON body when the body is an object (or another value that has
    members) with a truthy [error], and the raw body text in every other case:
    a body that is not JSON, the JSON [null], a body without [error] or with a
    falsy one. *)
Theorem error_details_are_error_member_or_text (resp : HttpResponse) :
  (forall e, resp_json resp = inl e ->
             error_details resp = VStr (resp_text resp))
  /\ (resp_json resp = inr VNull -> error_details resp = VStr (resp_text resp))
  /\ (forall parsed,
         resp_json resp = inr parsed ->
         truthy (opt_member parsed "error") = false ->
         error_details resp = VStr (resp_text resp))
  /\ (forall parsed,
         resp_json resp = inr parsed ->
         truthy (opt_member parsed "error") = true ->
         error_details resp = opt_member parsed "error")
  /\ (error_details resp = VStr (resp_text resp)
      \/ truthy (error_details resp) = true).
Proof.
  unfold error_details.
  destruct (resp_json resp) as [e | parsed].
  - repeat split; try discriminate; auto.
  - assert (D : match member parsed "error" with
                | Some err => or_else err (VStr (resp_text resp))
                | None => VStr (resp_text resp)
                end
                = if truthy (opt_member parsed "error")
                  then opt_member parsed "error"
                  else VStr (resp_text resp)).
    { unfold opt_member, or_else.
      destruct (member parsed "error"); reflexivity. }
    rewrite D. clear D.
    split; [discriminate|]. split; [now intros [= ->]|].
    split; [now intros ? [= <-] ->|]. split; [now intros ? [= <-] ->|].
    destruct (truthy (opt_member parsed "error")) eqn:E; [now right | now left].
Qed.

(** ** The language directive *)

Lemma prefix_refl (a : string) : String.prefix a a = true.
Proof.
  induction a as [|c a IH]; [reflexivity|].
  simpl. destruct (Ascii.ascii_dec c c); [exact IH | contradiction].
Qed.

(** X12. Whatever the language, the composed system instruction starts with
    the instruction it was given; for ["ja-JP"] it is that instruction
    followed by the Japanese directive, for ["en-US"] that instruction
    followed by the English directive, and the tags themselves are matched
    exactly. *)
Theorem composed_instruction_extends_input (instruction : string) :
  (forall language,
      String.prefix instruction
        (buildFinalSystemInstruction (Some instruction) language) = true)
  /\ buildFinalSystemInstruction (Some instruction) (Some "ja-JP")
     = instruction ++ ja_directive
  /\ buildFinalSystemInstruction (Some instruction) (Some "en-US")
     = instruction ++ en_directive
  /\ (forall language,
         buildFinalSystemInstruction (Some instruction) (Some language)
         <> instruction ->
         language = "ja-JP" \/ language = "en-US").
Proof.
  assert (E : forall language,
             buildFinalSystemInstruction (Some instruction) language
             = if language_is language "ja-JP" then instruction ++ ja_directive
               else if language_is language "en-US" then instruction ++ en_directive
               else instruction).
  { intros language. unfold buildFinalSystemInstruction.
    now rewrite str_truthy_or_empty. }
  split; [|split; [|split]].
  - intros language. rewrite E.
    destruct (language_is language "ja-JP"); [apply prefix_app|].
    destruct (language_is language "en-US"); [apply prefix_app | apply prefix_refl].
  - now rewrite E.
  - now rewrite E.
  - intros language. rewrite E. cbn [language_is].
    destruct (String.eqb_spec language "ja-JP"); [now left|].
    destruct (String.eqb_spec language "en-US"); [now right|].
    intros H. now contradiction H.
Qed.

(** * Properties of the chat page *)

(** ** [escapeHtml] *)

Lemma append_assoc (a b c : string) : (a ++ b) ++ c = a ++ (b ++ c).
Proof. induction a as [|x a IH]; [reflexivity | simpl; now rewrite IH]. Qed.

Lemma append_nil_r (a : string) : a ++ "" = a.
Proof. induction a as [|x a IH]; [reflexivity | simpl; now rewrite IH]. Qed.

Lemma replace_char_app (c : ascii) (by_ a b : string) :
  Page.replace_char c by_ (a ++ b)
  = Page.replace_char c by_ a ++ Page.replace_char c by_ b.
Proof.
  induction a as [|x a IH]; [reflexivity|].
  simpl. destruct (Ascii.eqb x c); rewrite IH; [now rewrite append_assoc | reflexivity].
Qed.

Lemma escapeHtml_cons (c : ascii) (rest : string) :
  Page.escapeHtml (String c rest) = escape_char c ++ Page.escapeHtml rest.
Proof.
  unfold Page.escapeHtml, escape_char. cbn [Page.replace_char].
  destruct (Ascii.eqb_spec c "&") as [-> | N1]; [reflexivity|].
  cbn [Page.replace_char].
  destruct (Ascii.eqb_spec c "<") as [-> | N2]; [reflexivity|].
  cbn [Page.replace_char].
  destruct (Ascii.eqb_spec c ">") as [-> | N3]; [reflexivity|].
  cbn [Page.replace_char].
  destruct (Ascii.eqb_spec c "034") as [-> | N4]; [reflexivity|].
  cbn [Page.replace_char].
  destruct (Ascii.eqb_spec c "'") as [-> | N5]; reflexivity.
Qed.

Lemma escape_each_app (a b : string) :
  escape_each (a ++ b) = escape_each a ++ escape_each b.
Proof.
  induction a as [|x a IH]; [reflexivity|].
  simpl. now rewrite IH, append_assoc.
Qed.

(** X13. [escapeHtml] escapes each character on its own, in one pass: the
    ampersands its first replacement writes are not escaped again by the
    later ones, the escape of a concatenation is the concatenation of the
    escapes, and a text without [&], [<], [>], double and single quote is
    left as it is. *)
Theorem escapeHtml_is_one_pass (s : string) :
  Page.escapeHtml s = escape_each s
  /\ (forall a b, s = a ++ b ->
                  Page.escapeHtml s = Page.escapeHtml a ++ Page.escapeHtml b)
  /\ (has_char (fun c => Ascii.eqb c "&" || is_markup_char c) s = false ->
      Page.escapeHtml s = s).
Proof.
  assert (E : forall t, Page.escapeHtml t = escape_each t).
  { induction t as [|c t IH]; [reflexivity|].
    rewrite escapeHtml_cons, IH. reflexivity. }
  split; [apply E|]. split.
  - intros a b ->. rewrite !E. apply escape_each_app.
  - rewrite E. induction s as [|c s IH]; [reflexivity|].
    cbn [has_char escape_each]. unfold is_markup_char, escape_char.
    destruct (Ascii.eqb c "&"); [discriminate|].
    destruct (Ascii.eqb c "<"); [discriminate|].
    destruct (Ascii.eqb c ">"); [discriminate|].
    destruct (Ascii.eqb c "034"); [discriminate|].
    destruct (Ascii.eqb c "'"); [discriminate|].
    cbn. intros H. now rewrite (IH H).
Qed.

Lemma has_char_app (p : ascii -> bool) (a b : string) :
  has_char p (a ++ b) = has_char p a || has_char p b.
Proof.
  induction a as [|x a IH]; [reflexivity|].
  simpl. now rewrite IH, orb_assoc.
Qed.

Lemma escape_char_no_markup (c : ascii) :
  has_char is_markup_char (escape_char c) = false.
Proof.
  unfold escape_char.
  destruct (Ascii.eqb c "&"); [reflexivity|].
  destruct (Ascii.eqb c "<") eqn:E2; [reflexivity|].
  destruct (Ascii.eqb c ">") eqn:E3; [reflexivity|].
  destruct (Ascii.eqb c "034") eqn:E4; [reflexivity|].
  destruct (Ascii.eqb c "'") eqn:E5; [reflexivity|].
  cbn. unfold is_markup_char. now rewrite E2, E3, E4, E5.
Qed.

(** X14. The text [escapeHtml] returns contains no [<], no [>], no double
    quote and no single quote, whatever the input. *)
Theorem escapeHtml_leaves_no_markup (s : string) :
  has_char is_markup_char (Page.escapeHtml s) = false.
Proof.
  induction s as [|c s IH]; [reflexivity|].
  now rewrite escapeHtml_cons, has_char_app, escape_char_no_markup, IH.
Qed.

Lemma escape_char_unique (x y : ascii) (r1 r2 : string) :
  escape_char x ++ r1 = escape_char y ++ r2 -> x = y /\ r1 = r2.
Proof.
  unfold escape_char.
  destruct (Ascii.eqb_spec x "&") as [-> | X1];
    [|destruct (Ascii.eqb_spec x "<") as [-> | X2];
      [|destruct (Ascii.eqb_spec x ">") as [-> | X3];
        [|destruct (Ascii.eqb_spec x "034") as [-> | X4];
          [|destruct (Ascii.eqb_spec x "'") as [-> | X5]]]]];
    (destruct (Ascii.eqb_spec y "&") as [-> | Y1];
     [|destruct (Ascii.eqb_spec y "<") as [-> | Y2];
       [|destruct (Ascii.eqb_spec y ">") as [-> | Y3];
         [|destruct (Ascii.eqb_spec y "034") as [-> | Y4];
           [|destruct (Ascii.eqb_spec y "'") as [-> | Y5]]]]]);
    cbn; intros H; try discriminate H;
    try (injection H as H; now split);
    try (injection H as H1 H2; subst; try contradiction; now split).
Qed.

(** X15. [escapeHtml] loses nothing: two texts with the same escape are the
    same text. *)
Theorem escapeHtml_is_injective (s t : string) :
  Page.escapeHtml s = Page.escapeHtml t -> s = t.
Proof.
  revert t. induction s as [|x s IH]; intros [|y t].
  - reflexivity.
  - rewrite escapeHtml_cons. cbn. unfold escape_char.
    destruct (Ascii.eqb y "&"); [discriminate|].
    destruct (Ascii.eqb y "<"); [discriminate|].
    destruct (Ascii.eqb y ">"); [discriminate|].
    destruct (Ascii.eqb y "034"); [discriminate|].
    destruct (Ascii.eqb y "'"); discriminate.
  - rewrite escapeHtml_cons. cbn. unfold escape_char.
    destruct (Ascii.eqb x "&"); [discriminate|].
    destruct (Ascii.eqb x "<"); [discriminate|].
    destruct (Ascii.eqb x ">"); [discriminate|].
    destruct (Ascii.eqb x "034"); [discriminate|].
    destruct (Ascii.eqb x "'"); discriminate.
  - rewrite !escapeHtml_cons. intros H.
    destruct (escape_char_unique _ _ _ _ H) as [-> H'].
    now rewrite (IH t H').
Qed.

Lemma escapeHtml_injective_witness :
  "<b>Rain & wind</b>" = "<b>Rain & wind</b>".
Proof.
  apply (escapeHtml_is_injective "<b>Rain & wind</b>" "<b>Rain & wind</b>").
  reflexivity.
Defined.

(** ** [detectCity] *)

Lemma starts_with_iff (s sub : string) :
  starts_with s sub = true <-> exists post, s = sub ++ post.
Proof.
  unfold starts_with. revert s.
  induction sub as [|c sub IH]; intros s.
  - simpl. split; [intros _; now exists s | now destruct s].
  - destruct s as [|x s]; simpl.
    + split; [discriminate | intros (post & H); discriminate H].
    + destruct (Ascii.ascii_dec c x) as [-> | N].
      * rewrite IH. split; intros (post & H); exists post; [now rewrite H | now injection H].
      * split; [discriminate|]. intros (post & H). injection H as H _. now contradiction N.
Qed.

Lemma includes_iff (s sub : string) :
  includes s sub = true <-> exists pre post, s = pre ++ sub ++ post.
Proof.
  split.
  - induction s as [|x s IH]; cbn [includes]; rewrite orb_true_iff; intros [H | H].
    + apply starts_with_iff in H. destruct H as (post & H). now exists "", post.
    + discriminate.
    + apply starts_with_iff in H. destruct H as (post & H). now exists "", post.
    + destruct (IH H) as (pre & post & ->). now exists (String x pre), post.
  - intros (pre & post & ->). induction pre as [|x pre IH].
    + apply includes_starts_with, starts_with_iff. now exists post.
    + cbn [append includes]. rewrite IH. apply orb_true_r.
Qed.

Lemma includes_trans (s a b : string) :
  includes s a = true -> includes a b = true -> includes s b = true.
Proof.
  rewrite !includes_iff. intros (p1 & q1 & ->) (p2 & q2 & ->).
  exists (p1 ++ p2), (q2 ++ q1). now rewrite !append_assoc.
Qed.

(** What the two loops return: the first name, or entry, that occurs. *)
Lemma first_city_spec (lowerText : string) (cities : list string) :
  match Page.first_city lowerText cities with
  | Some c =>
      exists before city rest,
        cities = (before ++ city :: rest)%list
        /\ includes lowerText city = true
        /\ (forall m, In m before -> includes lowerText m = false)
        /\ c = Page.capitalize city
  | None => forall m, In m cities -> includes lowerText m = false
  end.
Proof.
  induction cities as [|city rest IH]; cbn [Page.first_city]; [now intros m []|].
  destruct (includes lowerText city) eqn:E.
  - exists [], city, rest. repeat split; [exact E | now intros m []].
  - destruct (Page.first_city lowerText rest) as [c|].
    + destruct IH as (before & city' & rest' & -> & Hin & Hno & ->).
      exists (city :: before), city', rest'.
      repeat split; [exact Hin|]. intros m [<- | Hm]; [exact E | now apply Hno].
    + intros m [<- | Hm]; [exact E | now apply IH].
Qed.

Lemma first_entry_spec (lowerText : string) (entries : list (string * string)) :
  match Page.first_entry lowerText entries with
  | Some v =>
      exists before key rest,
        entries = (before ++ (key, v) :: rest)%list
        /\ includes lowerText key = true
        /\ (forall k w, In (k, w) before -> includes lowerText k = false)
  | None => forall k w, In (k, w) entries -> includes lowerText k = false
  end.
Proof.
  induction entries as [|[key val] rest IH]; cbn [Page.first_entry];
    [now intros k w []|].
  destruct (includes lowerText key) eqn:E.
  - exists [], key, rest. repeat split; [exact E | now intros k w []].
  - destruct (Page.first_entry lowerText rest) as [v|].
    + destruct IH as (before & key' & rest' & -> & Hin & Hno).
      exists ((key, val) :: before), key', rest'.
      repeat split; [exact Hin|].
      intros k w [[= <- <-] | Hm]; [exact E | now apply (Hno k w)].
    + intros k w [[= <- <-] | Hm]; [exact E | now apply (IH k w)].
Qed.

(** X16. [detectCity] returns [null] exactly when the lowered text contains
    no name of [commonCities] and no key of [cityMap]; a city it returns is
    the capitalized name of [commonCities], or the value of the key of
    [cityMap], that occurs in the lowered text. *)
Theorem detectCity_finds_a_listed_name
    (toLowerCase : string -> string) (text : string) :
  (Page.detectCity toLowerCase text = None
   <-> (forall name, In name Page.commonCities ->
                     includes (toLowerCase text) name = false)
       /\ (forall key val, In (key, val) Page.cityMap ->
                           includes (toLowerCase text) key = false))
  /\ (forall city,
         Page.detectCity toLowerCase text = Some city ->
         (exists name, In name Page.commonCities
                       /\ includes (toLowerCase text) name = true
                       /\ city = Page.capitalize name)
         \/ (exists key, In (key, city) Page.cityMap
                         /\ includes (toLowerCase text) key = true)).
Proof.
  unfold Page.detectCity.
  generalize (first_city_spec (toLowerCase text) Page.commonCities).
  generalize (first_entry_spec (toLowerCase text) Page.cityMap).
  generalize Page.commonCities, Page.cityMap. intros cities entries.
  destruct (Page.first_city (toLowerCase text) cities) as [c|].
  - intros _ (before & name & rest & -> & Hin & _ & ->). split.
    + split; [discriminate|]. intros [H _].
      rewrite (H name) in Hin; [discriminate | apply in_elt].
    + intros city [= <-]. left. exists name. repeat split; [apply in_elt | exact Hin].
  - destruct (Page.first_entry (toLowerCase text) entries) as [v|].
    + intros (before & key & rest & -> & Hin & _) Hnone. split.
      * split; [discriminate|]. intros [_ H].
        rewrite (H key v) in Hin; [discriminate | apply in_elt].
      * intros city [= <-]. right. exists key. split; [apply in_elt | exact Hin].
    + intros Hno2 Hno1. split; [|discriminate].
      split; [intros _; now split | reflexivity].
Qed.

Lemma first_city_first_match
    (lowerText : string) (before : list string) (name : string) (rest : list string) :
  includes lowerText name = true ->
  (forall m, In m before -> includes lowerText m = false) ->
  Page.first_city lowerText (before ++ name :: rest) = Some (Page.capitalize name).
Proof.
  intros Hin Hno. induction before as [|m before IH]; cbn [app Page.first_city].
  - now rewrite Hin.
  - rewrite (Hno m (or_introl eq_refl)). apply IH.
    intros x Hx. apply Hno. now right.
Qed.

Lemma first_city_none (lowerText : string) (cities : list string) :
  (forall m, In m cities -> includes lowerText m = false) ->
  Page.first_city lowerText cities = None.
Proof.
  intros Hnone. induction cities as [|m cities IH]; [reflexivity|].
  cbn [Page.first_city]. rewrite (Hnone m (or_introl eq_refl)).
  apply IH. intros x Hx. apply Hnone. now right.
Qed.

Lemma first_entry_first_match
    (lowerText : string) (before : list (string * string)) (key val : string)
    (rest : list (string * string)) :
  includes lowerText key = true ->
  (forall k w, In (k, w) before -> includes lowerText k = false) ->
  Page.first_entry lowerText (before ++ (key, val) :: rest) = Some val.
Proof.
  intros Hin Hno. induction before as [|[k w] before IH]; cbn [app Page.first_entry].
  - now rewrite Hin.
  - rewrite (Hno k w (or_introl eq_refl)). apply IH.
    intros x y Hx. apply (Hno x y). now right.
Qed.

Lemma none_occurs (lowerText : string) (names : list string) :
  forallb (fun m => negb (includes lowerText m)) names = true ->
  forall m, In m names -> includes lowerText m = false.
Proof.
  intros H m Hm. rewrite forallb_forall in H.
  apply negb_true_iff. now apply H.
Qed.

(** X17. The first match decides. A name of [commonCities] that occurs in
    the lowered text is returned, capitalized, when no name listed before it
    occurs; a key of [cityMap] that occurs gives its value when no name of
    [commonCities] and no key before it occurs. *)
Theorem detectCity_first_match_decides
    (toLowerCase : string -> string) (text : string) :
  (forall before name rest,
      Page.commonCities = (before ++ name :: rest)%list ->
      includes (toLowerCase text) name = true ->
      (forall m, In m before -> includes (toLowerCase text) m = false) ->
      Page.detectCity toLowerCase text = Some (Page.capitalize name))
  /\ (forall before key val rest,
         Page.cityMap = (before ++ (key, val) :: rest)%list ->
         (forall m, In m Page.commonCities ->
                    includes (toLowerCase text) m = false) ->
         includes (toLowerCase text) key = true ->
         (forall k w, In (k, w) before -> includes (toLowerCase text) k = false) ->
         Page.detectCity toLowerCase text = Some val).
Proof.
  unfold Page.detectCity. split.
  - intros before name rest -> Hin Hno.
    now rewrite (first_city_first_match _ _ _ _ Hin Hno).
  - intros before key val rest -> Hnone Hin Hno.
    rewrite (first_city_none _ _ Hnone).
    apply (first_entry_first_match _ _ _ _ _ Hin Hno).
Qed.

Lemma detectCity_first_match_witness :
  Page.detectCity lower_ascii "Is it raining in Osaka or in Kyoto?" = Some "Osaka"
  /\ Page.detectCity lower_ascii "大阪と京都の天気" = Some "Osaka".
Proof.
  split.
  - apply (proj1 (detectCity_first_match_decides
                    lower_ascii "Is it raining in Osaka or in Kyoto?")
             ["tokyo"] "osaka" (skipn 2 Page.commonCities)).
    + reflexivity.
    + reflexivity.
    + intros m [<- | []]. reflexivity.
  - apply (proj2 (detectCity_first_match_decides lower_ascii "大阪と京都の天気")
             (firstn 3 Page.cityMap) "大阪" "Osaka" (skipn 4 Page.cityMap)).
    + reflexivity.
    + apply none_occurs. vm_compute. reflexivity.
    + reflexivity.
    + intros k w H. cbn in H.
      repeat (destruct H as [[= <- <-] | H]; [reflexivity|]). contradiction.
Defined.

Lemma first_city_within
    (lowerText : string) (before : list string) (name : string) (rest : list string) :
  includes lowerText name = true ->
  exists m,
    In m (before ++ [name])
    /\ Page.first_city lowerText (before ++ name :: rest) = Some (Page.capitalize m).
Proof.
  intros Hin. induction before as [|x before IH]; cbn [app Page.first_city].
  - exists name. rewrite Hin. split; [now left | reflexivity].
  - destruct (includes lowerText x).
    + exists x. split; [now left | reflexivity].
    + destruct IH as (m & Hm & ->). exists m. split; [now right | reflexivity].
Qed.

(** X18. An English mention of Philadelphia, Dallas, Oklahoma City,
    Portland, Las Vegas, Atlanta, Oakland, Cleveland, Milan, Glasgow, Manila,
    Kuala Lumpur, Adelaide, Auckland, Lagos or Casablanca is never detected as
    that city: each of these names contains "la", which is listed before
    them, so the text yields "La", or a city listed before "la" that it also
    mentions. *)
Theorem names_containing_la_are_not_detected
    (toLowerCase : string -> string) (text name : string) :
  In name la_shadowed ->
  includes (toLowerCase text) name = true ->
  Page.detectCity toLowerCase text <> Some (Page.capitalize name)
  /\ ((forall m, In m cities_before_la -> includes (toLowerCase text) m = false) ->
      Page.detectCity toLowerCase text = Some "La").
Proof.
  intros Hname Hin.
  assert (Hla : includes (toLowerCase text) "la" = true).
  { apply (includes_trans _ name); [exact Hin|].
    cbn in Hname.
    repeat (destruct Hname as [<- | Hname]; [reflexivity|]). contradiction. }
  assert (Hsplit : Page.commonCities
                   = (cities_before_la ++ "la" :: skipn 31 Page.commonCities)%list)
    by reflexivity.
  unfold Page.detectCity. rewrite Hsplit. split.
  - destruct (first_city_within (toLowerCase text) cities_before_la "la"
                (skipn 31 Page.commonCities) Hla) as (m & Hm & ->).
    intros [= E].
    assert (D : forallb
                  (fun m => forallb
                              (fun n => negb (Page.capitalize m =? Page.capitalize n)%string)
                              la_shadowed)
                  (cities_before_la ++ ["la"]) = true) by (vm_compute; reflexivity).
    rewrite forallb_forall in D. specialize (D m Hm).
    rewrite forallb_forall in D. specialize (D name Hname).
    rewrite E, String.eqb_refl in D. discriminate D.
  - intros Hno. now rewrite (first_city_first_match _ _ _ _ Hla Hno).
Qed.

Lemma names_containing_la_witness :
  Page.detectCity lower_ascii "Will it rain in Atlanta tonight?" = Some "La".
Proof.
  apply (names_containing_la_are_not_detected
           lower_ascii "Will it rain in Atlanta tonight?" "atlanta").
  - cbn. tauto.
  - reflexivity.
  - apply none_occurs. vm_compute. reflexivity.
Defined.

Lemma never_selected_sound
    (lowerText v : string) (entries : list (string * string)) :
  forall earlier,
    never_selected v earlier entries = true ->
    (forall k, In k earlier -> includes lowerText k = false) ->
    Page.first_entry lowerText entries <> Some v.
Proof.
  induction entries as [|[key val] rest IH]; intros earlier Hcheck Hearlier;
    cbn [Page.first_entry]; [discriminate|].
  cbn [never_selected] in Hcheck. apply andb_true_iff in Hcheck.
  destruct Hcheck as [Hhere Hrest].
  destruct (includes lowerText key) eqn:E.
  - intros [= ->]. rewrite String.eqb_refl in Hhere. cbn in Hhere.
    apply existsb_exists in Hhere. destruct Hhere as (k & Hk & Hkey).
    pose proof (Hearlier k Hk) as F.
    rewrite (includes_trans _ _ _ E Hkey) in F. discriminate F.
  - apply (IH (key :: earlier) Hrest).
    intros k [<- | Hk]; [exact E | now apply Hearlier].
Qed.

(** X19. [detectCity] never returns "Higashiosaka", whatever the text: the
    two keys of [cityMap] with that value each contain an earlier key, whose
    value is "Osaka", and no name of [commonCities] capitalizes to it. *)
Theorem higashiosaka_is_never_detected
    (toLowerCase : string -> string) (text : string) :
  Page.detectCity toLowerCase text <> Some "Higashiosaka".
Proof.
  unfold Page.detectCity.
  generalize (first_city_spec (toLowerCase text) Page.commonCities).
  destruct (Page.first_city (toLowerCase text) Page.commonCities) as [c|].
  - intros (before & city & rest & Hsplit & _ & _ & ->) [= E].
    assert (D : forallb
                  (fun n => negb (Page.capitalize n =? "Higashiosaka")%string)
                  Page.commonCities = true) by (vm_compute; reflexivity).
    rewrite forallb_forall in D. specialize (D city).
    rewrite E, String.eqb_refl in D. discriminate D.
    rewrite Hsplit. apply in_elt.
  - intros _. apply (never_selected_sound _ _ _ []); [|now intros k []].
    vm_compute. reflexivity.
Qed.

(** ** The scroll handler *)

Lemma header_step_invariant (h : Page.Header) (ev : Page.header_event) :
  header_invariant h -> header_invariant (Page.header_step h ev).
Proof.
  unfold header_invariant. destruct h as [c l t n b ch]. cbn.
  intros (Hn & Ht & Hc). subst t ch.
  destruct ev as [|f]; cbn.
  - unfold Page.handleScroll. cbn.
    destruct n as [|[|n]]; cbn; repeat split; auto; lia.
  - destruct n as [|[|n]]; cbn; [repeat split; auto | | lia].
    split; [lia|]. split; [reflexivity|].
    destruct (negb (Bool.eqb _ c) && _); reflexivity.
Qed.

(** X20. However scroll events and frame callbacks follow one another after
    the page is mounted, at most one frame callback is scheduled at any time,
    [tickingRef] is set exactly while one is, and the [compactHeader] state
    never differs from [compactRef]. *)
Theorem header_schedules_one_frame_at_a_time (events : list Page.header_event) :
  (Page.scheduled (Page.header_run events) <= 1)%nat
  /\ Page.tickingRef (Page.header_run events)
     = Nat.eqb (Page.scheduled (Page.header_run events)) 1
  /\ Page.compactHeader (Page.header_run events)
     = Page.compactRef (Page.header_run events).
Proof.
  change (header_invariant (Page.header_run events)).
  unfold Page.header_run.
  assert (H0 : header_invariant Page.header_mounted)
    by (cbn; repeat split; auto).
  revert H0. generalize Page.header_mounted.
  induction events as [|ev events IH]; intros h Hh; [exact Hh|].
  cbn [fold_left]. apply IH, header_step_invariant, Hh.
Qed.

(** X21. A frame callback changes [compactRef] only when more than 250 ms
    have passed since the last change, and then records the time; it turns
    the compact header on only above a scroll position of 120 and off only
    below 48, so that between 48 and 120 the header stays as it is. *)
Theorem compact_header_has_hysteresis (h : Page.Header) (f : Page.Frame) :
  (Page.compactRef (Page.on_frame h f) <> Page.compactRef h ->
   250 < Page.now f - Page.lastToggleRef h
   /\ Page.lastToggleRef (Page.on_frame h f) = Page.now f
   /\ (if Page.compactRef h
       then PrimFloat.ltb (Page.scroll_position f) 48%float = true
       else PrimFloat.ltb 120%float (Page.scroll_position f) = true))
  /\ (Page.compactRef (Page.on_frame h f) = Page.compactRef h ->
      Page.lastToggleRef (Page.on_frame h f) = Page.lastToggleRef h)
  /\ (PrimFloat.ltb 120%float (Page.scroll_position f) = false ->
      PrimFloat.ltb (Page.scroll_position f) 48%float = false ->
      Page.compactRef (Page.on_frame h f) = Page.compactRef h).
Proof.
  unfold Page.on_frame, Page.ENTER_COMPACT_AT, Page.EXIT_COMPACT_AT.
  cbn [Page.compactRef Page.lastToggleRef].
  destruct (Page.compactRef h);
    destruct (PrimFloat.ltb 120%float (Page.scroll_position f));
    destruct (PrimFloat.ltb (Page.scroll_position f) 48%float);
    cbn [negb andb Bool.eqb];
    destruct (250 <? Page.now f - Page.lastToggleRef h) eqn:E;
    cbn [negb andb];
    repeat split; intros; try reflexivity; try discriminate;
    try (exfalso; auto; fail);
    try (now apply Z.ltb_lt).
Qed.

(** ** The prompt of a message *)

Lemma last_five_recent {A} (older recent : list A) :
  length recent = 5%nat -> Page.last_five (older ++ recent) = recent.
Proof.
  intros H. unfold Page.last_five. rewrite length_app, H.
  replace (length older + 5 - 5)%nat with (length older) by lia.
  rewrite skipn_app, skipn_all, Nat.sub_diag. reflexivity.
Qed.

Lemma join_is_empty (sep : string) (parts : list string) :
  (forall x, In x parts -> x <> "") ->
  (Page.join sep parts = "" <-> parts = []).
Proof.
  intros H. destruct parts as [|x [|y rest]]; cbn [Page.join].
  - tauto.
  - split; [|discriminate]. intros E. now contradiction (H x (or_introl eq_refl)).
  - split; [|discriminate]. intros E.
    destruct x; [now contradiction (H "" (or_introl eq_refl)) | discriminate E].
Qed.

Lemma filter_is_empty {A} (f : A -> bool) (l : list A) :
  filter f l = [] <-> forall x, In x l -> f x = false.
Proof.
  induction l as [|a l IH]; cbn [filter].
  - split; [now intros _ x [] | reflexivity].
  - destruct (f a) eqn:E.
    + split; [discriminate|]. intros H. rewrite (H a (or_introl eq_refl)) in E.
      discriminate E.
    + rewrite IH. split.
      * intros H x [<- | Hx]; [exact E | now apply H].
      * intros H x Hx. apply H. now right.
Qed.

Lemma context_is_empty {W} (messages : list (Page.ChatMessage W)) :
  Page.conversationContext messages = ""
  <-> forall m, In m (Page.last_five messages) -> Page.type m = Page.system.
Proof.
  unfold Page.conversationContext. rewrite join_is_empty.
  - split.
    + intros H. apply map_eq_nil in H. rewrite filter_is_empty in H.
      intros m Hm. specialize (H m Hm). now destruct (Page.type m).
    + intros H. replace (filter _ _) with (@nil (Page.ChatMessage W)); [reflexivity|].
      symmetry. apply filter_is_empty. intros m Hm. now rewrite (H m Hm).
  - intros x Hx. apply in_map_iff in Hx. destruct Hx as (m & <- & _).
    now destruct (Page.type m).
Qed.

(** X22. The conversation context of a prompt is built from the last five
    messages only, and is empty exactly when all of these are system
    messages; the prompt then is the input followed by the language
    instruction, and in every case it ends with the input, as typed, followed
    by that instruction. *)
Theorem prompt_ends_with_the_question
    {W : Type} (messages : list (Page.ChatMessage W)) (input language : string) :
  (forall older recent,
      messages = (older ++ recent)%list -> length recent = 5%nat ->
      Page.enhancedQuery messages input language
      = Page.enhancedQuery recent input language)
  /\ (Page.conversationContext messages = ""
      <-> forall m, In m (Page.last_five messages) -> Page.type m = Page.system)
  /\ ((forall m, In m (Page.last_five messages) -> Page.type m = Page.system) ->
      Page.enhancedQuery messages input language
      = input ++ (if (language =? "ja-JP")%string then Page.ja_instruction else ""))
  /\ (exists before,
         Page.enhancedQuery messages input language
         = before ++ input
           ++ (if (language =? "ja-JP")%string then Page.ja_instruction else "")).
Proof.
  split; [|split; [apply context_is_empty | split]].
  - intros older recent -> H5.
    unfold Page.enhancedQuery, Page.conversationContext.
    rewrite (last_five_recent older recent H5).
    replace (Page.last_five recent) with recent; [reflexivity|].
    unfold Page.last_five. now rewrite H5.
  - intros H. apply context_is_empty in H.
    unfold Page.enhancedQuery. now rewrite H.
  - unfold Page.enhancedQuery.
    destruct (str_truthy (Page.conversationContext messages)).
    + exists ("Previous conversation:" ++ Page.newline
              ++ Page.conversationContext messages ++ Page.newline ++ Page.newline
              ++ "Current question: ").
      now rewrite !append_assoc.
    + now exists "".
Qed.

(** ** Sending a message *)

(** Every name of [commonCities] starts with a lower-case ASCII letter, so
    that [capitalize] is what [charAt(0).toUpperCase() + slice(1)] makes of it. *)
Lemma commonCities_start_with_a_letter :
  forallb
    (fun name =>
       match name with
       | String c _ => ((97 <=? N_of_ascii c) && (N_of_ascii c <=? 122))%N
       | EmptyString => false
       end)
    Page.commonCities = true.
Proof. vm_compute. reflexivity. Qed.



Section Sending.

Variable toLowerCase : string -> string.
Variable W : Type.


End Sending.


Section Replies.

Variable toLowerCase : string -> string.
Variable W : Type.

Lemma ask_outcome (api : Page.Api W) (c : Page.Chat W) (city language : string) :
  match snd (Page.ask api c city language) with
  | inr (w, response) =>
      (exists asked,
          In (Page.WeatherCall asked) (fst (Page.ask api c city language))
          /\ Page.fetchWeather api asked = inr w
          /\ (asked = city \/ asked = Page.location c))
      /\ In (Page.GeminiCall
               (Page.enhancedQuery (Page.messages c) (Page.userInput c) language)
               w language)
            (fst (Page.ask api c city language))
      /\ Page.fetchGeminiResponse api
           (Page.enhancedQuery (Page.messages c) (Page.userInput c) language)
           w language = inr response
  | inl e =>
      (Page.fetchWeather api (Page.location c) = inl e
       /\ In (Page.WeatherCall (Page.location c)) (fst (Page.ask api c city language))
       /\ forall q w l,
           ~ In (Page.GeminiCall q w l) (fst (Page.ask api c city language)))
      \/ (exists w,
             In (Page.GeminiCall
                   (Page.enhancedQuery (Page.messages c) (Page.userInput c) language)
                   w language)
                (fst (Page.ask api c city language))
             /\ Page.fetchGeminiResponse api
                  (Page.enhancedQuery (Page.messages c) (Page.userInput c) language)
                  w language = inl e)
  end.
Proof.
  unfold Page.ask.
  destruct (Page.fetchWeather api city) as [e1 | w] eqn:E1.
  - destruct (Page.fetchWeather api (Page.location c)) as [e2 | w] eqn:E2.
    + cbn. left. repeat split; [tauto|].
      intros q w l [H | [H | []]]; discriminate H.
    + destruct (Page.fetchGeminiResponse api _ w language) as [e | response] eqn:E3;
        cbn [fst snd].
      * right. exists w. split; [cbn; tauto | exact E3].
      * split; [|split; [cbn; tauto | exact E3]].
        exists (Page.location c). cbn. tauto.
  - destruct (Page.fetchGeminiResponse api _ w language) as [e | response] eqn:E3;
      cbn [fst snd].
    + right. exists w. split; [cbn; tauto | exact E3].
    + split; [|split; [cbn; tauto | exact E3]].
      exists city. cbn. tauto.
Qed.

(** X24. The reply that a send appends tells what the services did. An
    assistant reply carries the text that [fetchGeminiResponse] returned for
    the prompt built from the state of the call, and the weather that a call
    of [fetchWeather] of this send returned, for the city asked first or for
    the location; a system reply carries the message of the call that failed:
    the weather of the location, after which the assistant is not asked, or
    the assistant itself. *)
Theorem reply_tells_what_the_services_did
    (api : Page.Api W) (c : Page.Chat W) (language : string) (now1 now2 : N)
    (calls : list (Page.api_call W)) (c' : Page.Chat W)
    (u r : Page.ChatMessage W) :
  Page.handleSendMessage toLowerCase api c language now1 now2 = (calls, c') ->
  Page.messages c' = (Page.messages c ++ [u; r])%list ->
  (Page.type r = Page.assistant ->
   exists w response,
     In (Page.GeminiCall
           (Page.enhancedQuery (Page.messages c) (Page.userInput c) language)
           w language) calls
     /\ Page.fetchGeminiResponse api
          (Page.enhancedQuery (Page.messages c) (Page.userInput c) language)
          w language = inr response
     /\ Page.content r = Page.response_text response
     /\ Page.sources r = Some (Page.response_sources response)
     /\ Page.weatherData r = Some w
     /\ exists asked,
          In (Page.WeatherCall asked) calls
          /\ Page.fetchWeather api asked = inr w)
  /\ (Page.type r = Page.system ->
      exists e,
        Page.content r
        = "❌ Error: "
          ++ match e with
             | Page.ErrorObject message => message
             | Page.OtherValue => "An unknown error occurred"
             end
        /\ ((Page.fetchWeather api (Page.location c) = inl e
             /\ forall q w l, ~ In (Page.GeminiCall q w l) calls)
            \/ exists w,
                In (Page.GeminiCall
                      (Page.enhancedQuery (Page.messages c) (Page.userInput c) language)
                      w language) calls
                /\ Page.fetchGeminiResponse api
                     (Page.enhancedQuery (Page.messages c) (Page.userInput c) language)
                     w language = inl e)).
Proof.
  unfold Page.handleSendMessage.
  destruct (str_truthy (trim (Page.userInput c))); cbn [negb].
  2:{ intros [= <- <-]. cbn. intros H.
      apply (f_equal (@length _)) in H. rewrite length_app in H. cbn in H. lia. }
  set (city := trim match Page.detectCity toLowerCase (Page.userInput c) with
                    | Some x => if str_truthy x then x else Page.location c
                    | None => Page.location c
                    end).
  destruct (negb _ && _).
  { intros [= <- <-]. cbn. intros H.
    apply (f_equal (@length _)) in H. rewrite length_app in H. cbn in H. lia. }
  generalize (ask_outcome api c city language).
  destruct (Page.ask api c city language) as [calls0 outcome]. cbn [fst snd].
  intros Hask [= <- <-]. cbn [Page.messages]. intros Hm.
  apply app_inv_head in Hm. injection Hm as <- <-.
  destruct outcome as [e | [w response]].
  - split; [discriminate|]. intros _. exists e. split; [reflexivity|].
    destruct Hask as [(Hw & _ & Hno) | (w & Hin & Hg)]; [left | right].
    + now split.
    + now exists w.
  - split; [|discriminate]. intros _.
    destruct Hask as ((asked & Hin & Hw & _) & Hg & Hr).
    exists w, response. repeat split; try assumption.
    now exists asked.
Qed.

End Replies.

Lemma reply_witness :
  exists w response,
    Page.fetchGeminiResponse sample_api
      (Page.enhancedQuery (@nil (Page.ChatMessage string))
         "Do I need an umbrella in Kyoto?" "en-US")
      w "en-US" = inr response
    /\ Page.response_text response = "Take an umbrella.".
Proof.
  destruct (reply_tells_what_the_services_did lower_ascii string sample_api
              {| Page.userInput := "Do I need an umbrella in Kyoto?";
                 Page.location := "Osaka";
                 Page.messages := [];
                 Page.loading := false;
                 Page.error := None |}
              "en-US" 1700000000000 1700000002000 _ _
              _ _ eq_refl eq_refl)
    as [Hassistant _].
  destruct (Hassistant eq_refl) as (w & response & _ & Hg & Hc & _).
  exists w, response. split; [exact Hg | now rewrite <- Hc].
Defined.

(** ** The weather icon *)

(** X25. [getWeatherIcon] returns one of six icons, and the tests come in
    order: a condition that mentions rain or drizzle, and neither "clear" nor
    "cloud", gets the rain icon even when it mentions thunder, and the thunder
    icon is given exactly to conditions that mention thunder and none of
    "clear", "cloud", "rain" and "drizzle". *)
Theorem thunder_icon_only_without_rain
    (toLowerCase : string -> string) (condition : string) :
  In (Page.getWeatherIcon toLowerCase condition)
     ["☀️"; "☁️"; "🌧️"; "⛈️"; "🌨️"; "🌀"]
  /\ (includes (toLowerCase condition) "clear" = false ->
      includes (toLowerCase condition) "cloud" = false ->
      includes (toLowerCase condition) "rain" = true
      \/ includes (toLowerCase condition) "drizzle" = true ->
      Page.getWeatherIcon toLowerCase condition = "🌧️")
  /\ (Page.getWeatherIcon toLowerCase condition = "⛈️"
      <-> includes (toLowerCase condition) "thunder" = true
          /\ includes (toLowerCase condition) "clear" = false
          /\ includes (toLowerCase condition) "cloud" = false
          /\ includes (toLowerCase condition) "rain" = false
          /\ includes (toLowerCase condition) "drizzle" = false).
Proof.
  unfold Page.getWeatherIcon.
  destruct (includes (toLowerCase condition) "clear");
    destruct (includes (toLowerCase condition) "cloud");
    destruct (includes (toLowerCase condition) "rain");
    destruct (includes (toLowerCase condition) "drizzle");
    destruct (includes (toLowerCase condition) "thunder");
    destruct (includes (toLowerCase condition) "snow");
    cbn [orb];
    (split; [cbn; tauto|]);
    (split; [intros; try reflexivity; try discriminate;
             match goal with H : _ \/ _ |- _ => destruct H; discriminate end|]);
    (split; [intros H; try discriminate H; repeat split
            | intros (H1 & H2 & H3 & H4 & H5); try discriminate; reflexivity]).
Qed.

(** ** The weather panel *)

(** X26. The weather that the page shows is that of the latest assistant
    message. After a send that was answered it is the weather the answer was
    asked with; a send that ended in an error, like the message of the user,
    leaves it as it was. *)
Theorem panel_shows_weather_of_latest_answer
    {W : Type} (earlier : list (Page.ChatMessage W)) (u r : Page.ChatMessage W) :
  Page.type u = Page.user ->
  (Page.type r = Page.assistant ->
   forall w, Page.weatherData r = Some w ->
             Page.latestAssistantWeather (earlier ++ [u; r]) = Some w)
  /\ (Page.type r = Page.system ->
      Page.latestAssistantWeather (earlier ++ [u; r])
      = Page.latestAssistantWeather earlier).
Proof.
  intros Hu. unfold Page.latestAssistantWeather.
  rewrite rev_app_distr. cbn [rev app find]. rewrite Hu. cbn [Page.is_assistant andb].
  split.
  - intros Hr w Hw. now rewrite Hr, Hw.
  - intros Hr. now rewrite Hr.
Qed.

Lemma panel_witness :
  Page.latestAssistantWeather
    (Page.messages
       (snd (Page.handleSendMessage lower_ascii sample_api
               {| Page.userInput := "Do I need an umbrella in Osaka?";
                  Page.location := "Tokyo";
                  Page.messages := [];
                  Page.loading := false;
                  Page.error := None |}
               "en-US" 1700000000000 1700000002000)))
  = Some "Osaka: light rain, 18 C".
Proof.
  apply (proj1 (panel_shows_weather_of_latest_answer
                  []
                  (Page.mkMessage "1700000000000" Page.user
                     "Do I need an umbrella in Osaka?" None None)
                  (Page.mkMessage "1700000002001" Page.assistant
                     "Take an umbrella." (Some "Osaka: light rain, 18 C") (Some []))
                  eq_refl));
    reflexivity.
Defined.
